(** * tractome.io: path validation and CSV ingestion

    A shallow embedding of [src/tractome/io.py] ([validate_path],
    [read_tractogram], [read_csv]) together with the parts of the Python
    runtime these functions call: [str] methods, [os.path], [open],
    [csv.reader] / [csv.DictReader], [logging.info] and the three numpy
    operations used ([asarray], [concatenate], basic slicing).

    [read_mesh], [read_nifti] and the two writers are embedded further
    down, over a session that records the calls made to trimesh and dipy.

    Conventions of the model.
    - A Python [str] is a Rocq [string]; its characters are compared by
      code, which is the order Python uses.  [str.lower] is the ASCII
      lowering: no other character lowers to one of [.], [c], [s], [v],
      which is all [read_csv] asks of it.
    - The interpreter state is a [world]: the process environment, the
      file system seen through path resolution, the log, and the trace
      of calls handed to dipy.  Every function of the module is a
      computation in the state-and-exception monad [M] over worlds.
    - What trimesh and dipy return, raise, log and write is not known
      here: it is given by the world and by the session, and every
      statement holds whatever they give.  The log is the sequence of
      messages handed to [logging], by this module and by the libraries.
    - numpy follows the 1.24+ rule that a ragged nested list is refused
      by [asarray] with [ValueError].  An array of dtype str keeps its
      strings in a fixed width, so that a string read back from it has
      lost the NUL characters at its end. *)

From Stdlib Require Import NArith Ascii String List Bool Lia.
From stdpp Require Import base tactics option list strings sorting gmap.

Local Open Scope string_scope.
Local Open Scope list_scope.

(** ** Python exceptions and results *)

Inductive exn : Type :=
  | FileNotFoundError (msg : string)
  | IsADirectoryError (msg : string)
  | OSError (msg : string)
  | ValueError (msg : string)
  | IndexError (msg : string)
  | LookupError (msg : string)
  | UnicodeDecodeError (msg : string)
  | csv_Error (msg : string).

Inductive result (A : Type) : Type :=
  | Ok (a : A)
  | Raise (e : exn).
Arguments Ok {A} a.
Arguments Raise {A} e.

Definition result_bind {A B} (r : result A) (k : A → result B) : result B :=
  match r with
  | Ok a => k a
  | Raise e => Raise e
  end.


(** ** [str] methods *)

Module Str.

Definition lower_char (c : ascii) : ascii :=
  let n := N_of_ascii c in
  if ((65 <=? n) && (n <=? 90))%N then ascii_of_N (n + 32) else c.

Fixpoint lower (s : string) : string :=
  match s with
  | EmptyString => EmptyString
  | String c s' => String (lower_char c) (lower s')
  end.

Definition startswith (s pre : string) : bool := String.prefix pre s.

(** [s.endswith(suf)]: [s] is [suf], or the tail of [s] ends with [suf]. *)
Fixpoint endswith (s suf : string) : bool :=
  (s =? suf)%string ||
  match s with
  | EmptyString => false
  | String _ s' => endswith s' suf
  end.

(** [s.rstrip(ch)] for a one-character argument. *)
Fixpoint rstrip (ch : ascii) (s : string) : string :=
  match s with
  | EmptyString => EmptyString
  | String c s' =>
      match rstrip ch s' with
      | EmptyString => if Ascii.eqb c ch then EmptyString else String c EmptyString
      | r => String c r
      end
  end.

(** [(s[:i], s[i:])] where [i] is the index of the first [ch] in [s],
    or [len(s)] when there is none. *)
Fixpoint break_at (ch : ascii) (s : string) : string * string :=
  match s with
  | EmptyString => (EmptyString, EmptyString)
  | String c s' =>
      if Ascii.eqb c ch then (EmptyString, s)
      else let '(a, b) := break_at ch s' in (String c a, b)
  end.

(** [sorted] on a list of strings. *)
Definition sorted (l : list string) : list string := merge_sort String.le l.

End Str.

(** ** [os.path] (posixpath) *)

Record environ : Type := Environ {
  HOME : option string;              (* os.environ.get('HOME') *)
  pw_dir_self : option string;       (* pwd.getpwuid(os.getuid()).pw_dir, None on KeyError *)
  getpwnam : string → option string  (* pwd.getpwnam(name).pw_dir, None on KeyError *)
}.

Module os_path.

Definition sep : ascii := "/"%char.

Definition expanduser (e : environ) (path : string) : string :=
  match path with
  | String "~"%char rest =>
      let '(name, tail) := Str.break_at sep rest in
      let userhome :=
        match name with
        | EmptyString =>
            match HOME e with
            | Some h => Some h
            | None => pw_dir_self e
            end
        | _ => getpwnam e name
        end in
      match userhome with
      | None => path
      | Some h =>
          match Str.rstrip sep h +:+ tail with
          | EmptyString => "/"
          | r => r
          end
      end
  | _ => path
  end.

Definition join (a b : string) : string :=
  if Str.startswith b "/" then b
  else if (a =? "")%string || Str.endswith a "/" then a +:+ b
  else a +:+ "/" +:+ b.

End os_path.

(** ** The world: file system, log, and what dipy was asked to load *)

(** What opening and reading a file can raise: an unknown encoding, bytes
    the encoding refuses, or an error of the operating system. *)
Inductive read_error : Type :=
  | UnknownEncoding (msg : string)
  | UndecodableBytes (msg : string)
  | SystemError (msg : string).

Definition exn_of_read_error (e : read_error) : exn :=
  match e with
  | UnknownEncoding msg => LookupError msg
  | UndecodableBytes msg => UnicodeDecodeError msg
  | SystemError msg => OSError msg
  end.

Inductive node : Type :=
  | File (read : string → read_error + string)
      (* the text that reading the whole file under an encoding yields *)
  | Dir (names : list string)
      (* os.listdir, in the order the system produces it *)
  | Special.
      (* exists, but neither a regular file nor a directory *)

Inductive Reference : Type :=
  | RefStr (s : string)
  | RefImage (id : nat).

Record StatefulTractogram : Type := Sft {
  sft_bool : bool;                              (* bool(sft) *)
  data_per_streamline : option (list string)    (* its keys, when not None *)
}.

Inductive loaded : Type :=
  | LoadedFalse
  | LoadedSft (sft : StatefulTractogram).

Record world : Type := World {
  env : environ;
  resolve : string → option node;
  dipy_load : string → Reference → result loaded;
  dipy_messages : string → Reference → list string;
      (* what dipy itself logs while it loads *)
  log : list string;
  load_calls : list (string * Reference)
}.

Definition M (A : Type) : Type := world → result A * world.

Definition ret {A} (a : A) : M A := λ w, (Ok a, w).
Definition raise {A} (e : exn) : M A := λ w, (Raise e, w).
Definition bind {A B} (m : M A) (k : A → M B) : M B :=
  λ w, match m w with
       | (Ok a, w') => k a w'
       | (Raise e, w') => (Raise e, w')
       end.
Definition lift {A} (r : result A) : M A := λ w, (r, w).

Declare Scope py_scope.
Delimit Scope py_scope with py.
Notation "x ← m ; k" := (bind m (λ x, k))
  (at level 20, m at level 100, k at level 200, only parsing) : py_scope.
Notation "m ;; k" := (bind m (λ _, k))
  (at level 100, k at level 200, only parsing, right associativity) : py_scope.
Local Open Scope py_scope.

Definition get_env : M environ := λ w, (Ok (env w), w).
Definition stat (path : string) : M (option node) := λ w, (Ok (resolve w path), w).

Definition logging_info (msg : string) : M unit :=
  λ w, (Ok tt, World (env w) (resolve w) (dipy_load w) (dipy_messages w)
                 (log w ++ [msg]) (load_calls w)).

Definition os_path_expanduser (path : string) : M string :=
  e ← get_env; ret (os_path.expanduser e path).

Definition os_path_exists (path : string) : M bool :=
  n ← stat path; ret (if n is Some _ then true else false).

Definition os_path_isfile (path : string) : M bool :=
  n ← stat path; ret (if n is Some (File _) then true else false).

Definition os_path_isdir (path : string) : M bool :=
  n ← stat path; ret (if n is Some (Dir _) then true else false).

Definition os_listdir (path : string) : M (list string) :=
  n ← stat path;
  match n with
  | Some (Dir names) => ret names
  | Some _ => raise (OSError ("[Errno 20] Not a directory: " +:+ path))
  | None => raise (FileNotFoundError ("[Errno 2] No such file or directory: " +:+ path))
  end.

(** [open(path, newline="", encoding=encoding)] followed by reading the
    file to its end. *)
Definition open_read (path encoding : string) : M string :=
  n ← stat path;
  match n with
  | Some (File read) =>
      match read encoding with
      | inr text => ret text
      | inl e => raise (exn_of_read_error e)
      end
  | Some (Dir _) => raise (IsADirectoryError ("[Errno 21] Is a directory: " +:+ path))
  | Some Special =>
      (* never reached from this module: every path it opens is a regular file *)
      raise (OSError ("[Errno 6] No such device or address: " +:+ path))
  | None => raise (FileNotFoundError ("[Errno 2] No such file or directory: " +:+ path))
  end.

(** dipy's [load_tractogram]: the call is recorded, dipy logs what it
    logs, and returns or raises. *)
Definition load_tractogram (path : string) (ref : Reference) : M loaded :=
  λ w, (dipy_load w path ref,
        World (env w) (resolve w) (dipy_load w) (dipy_messages w)
          (log w ++ dipy_messages w path ref) (load_calls w ++ [(path, ref)])).

(** [for x in xs: acc = body(acc, x)], leaving at the first exception. *)
Fixpoint for_each {A S} (body : S → A → M S) (xs : list A) (acc : S) : M S :=
  match xs with
  | [] => ret acc
  | x :: xs' => acc' ← body acc x; for_each body xs' acc'
  end.

(** [[x for x in xs if cond(x)]] with an effectful condition. *)
Fixpoint filter_list {A} (cond : A → M bool) (xs : list A) : M (list A) :=
  match xs with
  | [] => ret []
  | x :: xs' =>
      b ← cond x;
      rest ← filter_list cond xs';
      ret (if b then x :: rest else rest)
  end.

(** ** Text files opened with [newline=""]

    Iterating such a file yields its lines split after ["\n"], ["\r"] or
    ["\r\n"], the line ends kept. *)

Definition LF : ascii := "010"%char.
Definition CR : ascii := "013"%char.

Fixpoint readlines_from (cur s : string) : list string :=
  match s with
  | EmptyString => if (cur =? "")%string then [] else [cur]
  | String c s' =>
      if Ascii.eqb c LF then (cur +:+ String c "") :: readlines_from "" s'
      else if Ascii.eqb c CR then
        match s' with
        | String c' s'' =>
            if Ascii.eqb c' LF
            then (cur +:+ String c (String c' "")) :: readlines_from "" s''
            else (cur +:+ String c "") :: readlines_from "" s'
        | EmptyString => [cur +:+ String c ""]
        end
      else readlines_from (cur +:+ String c "") s'
  end.

Definition readlines (text : string) : list string := readlines_from "" text.

(** ** The [csv] module, excel dialect with a chosen delimiter

    [quotechar] is the double quote, [doublequote] is on, there is no
    [escapechar], [skipinitialspace] and [strict] are off: the states that
    only an escape character reaches are absent. *)

Module csv.

Inductive state : Type :=
  | START_RECORD | START_FIELD | IN_FIELD | IN_QUOTED_FIELD
  | QUOTE_IN_QUOTED_FIELD | EAT_CRNL.

Inductive input : Type :=
  | Ch (c : ascii)
  | EOL.

Record Reader : Type := MkReader {
  st : state;
  fields : list string;
  field : string;
  field_len : N
}.

Definition quotechar : ascii := "034"%char.
Definition field_limit : N := 131072.

Definition parse_reset : Reader := MkReader START_RECORD [] "" 0.

Definition set_state (r : Reader) (s : state) : Reader :=
  MkReader s (fields r) (field r) (field_len r).

Definition parse_save_field (r : Reader) : Reader :=
  MkReader (st r) (fields r ++ [field r]) "" 0.

Definition parse_add_char (r : Reader) (c : ascii) : result Reader :=
  if (field_limit <=? field_len r)%N
  then Raise (csv_Error "field larger than field limit (131072)")
  else Ok (MkReader (st r) (fields r) (field r +:+ String c "") (field_len r + 1)).

Definition is_newline (c : input) : bool :=
  match c with
  | Ch a => Ascii.eqb a LF || Ascii.eqb a CR
  | EOL => false
  end.

Definition is_char (c : input) (a : ascii) : bool :=
  match c with
  | Ch b => Ascii.eqb b a
  | EOL => false
  end.

Definition is_EOL (c : input) : bool :=
  match c with
  | EOL => true
  | Ch _ => false
  end.

Definition after_line_end (c : input) : state :=
  if is_EOL c then START_RECORD else EAT_CRNL.

Definition add_input (r : Reader) (c : input) : result Reader :=
  match c with
  | Ch a => parse_add_char r a
  | EOL => Ok r
  end.

Definition start_field (delimiter : ascii) (r : Reader) (c : input) : result Reader :=
  if is_newline c || is_EOL c then
    Ok (set_state (parse_save_field r) (after_line_end c))
  else if is_char c quotechar then Ok (set_state r IN_QUOTED_FIELD)
  else if is_char c delimiter then Ok (parse_save_field r)
  else
    match add_input r c with
    | Ok r' => Ok (set_state r' IN_FIELD)
    | Raise e => Raise e
    end.

Definition parse_process_char (delimiter : ascii) (r : Reader) (c : input)
  : result Reader :=
  match st r with
  | START_RECORD =>
      if is_EOL c then Ok r
      else if is_newline c then Ok (set_state r EAT_CRNL)
      else start_field delimiter (set_state r START_FIELD) c
  | START_FIELD => start_field delimiter r c
  | IN_FIELD =>
      if is_newline c || is_EOL c then
        Ok (set_state (parse_save_field r) (after_line_end c))
      else if is_char c delimiter then
        Ok (set_state (parse_save_field r) START_FIELD)
      else add_input r c
  | IN_QUOTED_FIELD =>
      if is_EOL c then Ok r
      else if is_char c quotechar then Ok (set_state r QUOTE_IN_QUOTED_FIELD)
      else add_input r c
  | QUOTE_IN_QUOTED_FIELD =>
      if is_char c quotechar then
        match add_input r c with
        | Ok r' => Ok (set_state r' IN_QUOTED_FIELD)
        | Raise e => Raise e
        end
      else if is_char c delimiter then
        Ok (set_state (parse_save_field r) START_FIELD)
      else if is_newline c || is_EOL c then
        Ok (set_state (parse_save_field r) (after_line_end c))
      else
        match add_input r c with
        | Ok r' => Ok (set_state r' IN_FIELD)
        | Raise e => Raise e
        end
  | EAT_CRNL =>
      if is_newline c then Ok r
      else if is_EOL c then Ok (set_state r START_RECORD)
      else Raise (csv_Error
             "new-line character seen in unquoted field - do you need to open the file with newline=''?")
  end.

(** One line of input: its characters, then the end-of-line mark. *)
Fixpoint process_line (delimiter : ascii) (r : Reader) (line : string)
  : result Reader :=
  match line with
  | EmptyString => parse_process_char delimiter r EOL
  | String c line' =>
      match parse_process_char delimiter r (Ch c) with
      | Ok r' => process_line delimiter r' line'
      | Raise e => Raise e
      end
  end.

(** [list(reader)]: [Reader_iternext] called until the input is used up.
    A record is complete when a line leaves the parser in [START_RECORD];
    at the end of the input an open field or quoted field is closed. *)
Fixpoint records (delimiter : ascii) (r : Reader) (lines : list string)
  : result (list (list string)) :=
  match lines with
  | [] =>
      if negb (field_len r =? 0)%N || (if st r is IN_QUOTED_FIELD then true else false)
      then Ok [fields (parse_save_field r)]
      else Ok []
  | line :: rest =>
      match process_line delimiter r line with
      | Raise e => Raise e
      | Ok r' =>
          match st r' with
          | START_RECORD =>
              match records delimiter parse_reset rest with
              | Ok recs => Ok (fields r' :: recs)
              | Raise e => Raise e
              end
          | _ => records delimiter r' rest
          end
      end
  end.

Definition reader (text : string) (delimiter : ascii) : result (list (list string)) :=
  records delimiter parse_reset (readlines text).

(** A value found in a row of [DictReader]: a field, [restval] ([None])
    for a missing field, or under [restkey] the list of surplus fields. *)
Inductive value : Type :=
  | VStr (s : string)
  | VNone
  | VList (l : list string).

(** A Python [dict]: keys in order of first insertion.  The key [None]
    is [restkey]. *)
Definition dict : Type := list (option string * value).

Fixpoint dict_set (k : option string) (v : value) (d : dict) : dict :=
  match d with
  | [] => [(k, v)]
  | (k', v') :: d' =>
      if decide (k = k') then (k, v) :: d' else (k', v') :: dict_set k v d'
  end.

Fixpoint dict_zip (keys row : list string) (d : dict) : dict :=
  match keys, row with
  | k :: keys', x :: row' => dict_zip keys' row' (dict_set (Some k) (VStr x) d)
  | _, _ => d
  end.

Definition dict_values (d : dict) : list value := map snd d.

(** The body of [DictReader.__next__] once a non-blank row is read. *)
Definition make_row (fieldnames row : list string) : dict :=
  let d := dict_zip fieldnames row [] in
  let lf := length fieldnames in
  let lr := length row in
  if (lf <? lr)%nat then dict_set None (VList (drop lf row)) d
  else if (lr <? lf)%nat then
    fold_left (λ d key, dict_set (Some key) VNone d) (drop lr fieldnames) d
  else d.

Definition is_blank (row : list string) : bool :=
  match row with
  | [] => true
  | _ => false
  end.

(** [list(DictReader(f))]: the first record names the fields, blank
    records are passed over. *)
Definition DictReader (text : string) (delimiter : ascii) : result (list dict) :=
  match reader text delimiter with
  | Raise e => Raise e
  | Ok [] => Ok []
  | Ok (fieldnames :: rest) =>
      Ok (map (make_row fieldnames) (List.filter (λ row, negb (is_blank row)) rest))
  end.

End csv.

(** ** numpy: arrays of the cells a CSV file yields

    An array keeps its shape, its dtype and its entries along the first
    two axes; an entry of a three-dimensional array is the list lying
    along the last axis. *)

Module np.

Inductive dtype : Type :=
  | float64
  | str_
  | object_.

Record ndarray : Type := Array {
  shape : list nat;
  dtype_of : dtype;
  rows : list (list csv.value)
}.

Definition size (a : ndarray) : nat := fold_right Nat.mul 1 (shape a).
Definition ndim (a : ndarray) : nat := length (shape a).

(** [np.empty(shape)] for a shape with no element. *)
Definition empty (sh : list nat) : ndarray := Array sh float64 [].

Definition is_scalar (v : csv.value) : bool :=
  match v with
  | csv.VList _ => false
  | _ => true
  end.

Definition is_str (v : csv.value) : bool :=
  match v with
  | csv.VStr _ => true
  | _ => false
  end.

Definition has_len (k : nat) (v : csv.value) : bool :=
  match v with
  | csv.VList l => (length l =? k)%nat
  | _ => false
  end.

Definition inhomogeneous (after : string) : exn :=
  ValueError ("setting an array element with a sequence. The requested array has an inhomogeneous shape after "
              +:+ after +:+ " dimensions.").

Definition NUL : ascii := "000"%char.

(** What an array of the given dtype holds for a cell.  A [str_] array
    keeps its strings in a fixed width, filled up with NUL characters,
    and reads them back without the NULs at their end; an [object_] array
    keeps the Python objects themselves. *)
Definition stored (dt : dtype) (v : csv.value) : csv.value :=
  match dt, v with
  | str_, csv.VStr s => csv.VStr (Str.rstrip NUL s)
  | str_, csv.VList l => csv.VList (map (Str.rstrip NUL) l)
  | _, _ => v
  end.

(** [np.asarray] of a list of lists of cells. *)
Definition asarray (nested : list (list csv.value)) : result ndarray :=
  match nested with
  | [] => Ok (Array [0] float64 [])
  | first :: _ =>
      let n := length first in
      if negb (forallb (λ r, (length r =? n)%nat) nested)
      then Raise (inhomogeneous "1")
      else
        match concat nested with
        | [] => Ok (Array [length nested; n] float64 nested)
        | (c0 :: _) as cells =>
            if forallb is_scalar cells then
              let dt := if forallb is_str cells then str_ else object_ in
              Ok (Array [length nested; n] dt (map (map (stored dt)) nested))
            else
              match c0 with
              | csv.VList l0 =>
                  if forallb (has_len (length l0)) cells then
                    let dt := if (length l0 =? 0)%nat then float64 else str_ in
                    Ok (Array [length nested; n; length l0] dt
                          (map (map (stored dt)) nested))
                  else Raise (inhomogeneous "2")
              | _ => Raise (inhomogeneous "2")
              end
        end
  end.

Definition promote (d1 d2 : dtype) : dtype :=
  match d1, d2 with
  | object_, _ | _, object_ => object_
  | str_, _ | _, str_ => str_
  | float64, float64 => float64
  end.

(** What [concatenate] checks of each further array against the first. *)
Definition check_against (first a : ndarray) : result unit :=
  if negb (ndim a =? ndim first)%nat then
    Raise (ValueError "all the input arrays must have same number of dimensions")
  else if negb (bool_decide (tail (shape a) = tail (shape first))) then
    Raise (ValueError
      "all the input array dimensions except for the concatenation axis must match exactly")
  else Ok tt.

Fixpoint check_all (first : ndarray) (arrs : list ndarray) : result unit :=
  match arrs with
  | [] => Ok tt
  | a :: arrs' =>
      match check_against first a with
      | Ok _ => check_all first arrs'
      | Raise e => Raise e
      end
  end.

(** [np.concatenate(arrs, axis=0)]. *)
Definition concatenate (arrs : list ndarray) : result ndarray :=
  match arrs with
  | [] => Raise (ValueError "need at least one array to concatenate")
  | first :: rest =>
      match shape first with
      | [] => Raise (ValueError "zero-dimensional arrays cannot be concatenated")
      | _ :: trailing =>
          match check_all first rest with
          | Raise e => Raise e
          | Ok _ =>
              Ok (Array (length (concat (map rows arrs)) :: trailing)
                    (fold_left promote (map dtype_of rest) (dtype_of first))
                    (concat (map rows arrs)))
          end
      end
  end.

Definition too_many_indices : exn :=
  IndexError "too many indices for array: array is 1-dimensional, but 2 were indexed".

(** [a[:, :k]] *)
Definition columns_to (k : nat) (a : ndarray) : result ndarray :=
  match shape a with
  | m :: n :: trailing =>
      Ok (Array (m :: Nat.min k n :: trailing) (dtype_of a) (map (take k) (rows a)))
  | _ => Raise too_many_indices
  end.

(** [a[:, k:]] *)
Definition columns_from (k : nat) (a : ndarray) : result ndarray :=
  match shape a with
  | m :: n :: trailing =>
      Ok (Array (m :: (n - k) :: trailing) (dtype_of a) (map (drop k) (rows a)))
  | _ => Raise too_many_indices
  end.

End np.

(** ** tractome/io.py *)

Definition validate_path (path : string) : M string :=
  path ← os_path_expanduser path;
  found ← os_path_exists path;
  ok ← (if found then os_path_isfile path else ret false);
  if ok then ret path
  else raise (FileNotFoundError
                ("The file " +:+ path +:+ " does not exist or is not a file.")).

Definition reference_required : exn :=
  ValueError "Reference image must be provided for files other than .trk and .trx files.".

Definition has_dismatrix (sft : StatefulTractogram) : bool :=
  match data_per_streamline sft with
  | Some keys => bool_decide ("dismatrix" ∈ keys)
  | None => false
  end.

Definition read_tractogram (file_path : string) (reference : option Reference)
  : M StatefulTractogram :=
  validated_path ← validate_path file_path;
  logging_info ("Loading tractogram from " +:+ validated_path +:+ " ...");;
  reference ←
    match reference with
    | None =>
        if Str.endswith validated_path ".trk" || Str.endswith validated_path ".trx"
        then ret (RefStr "same")
        else raise reference_required
    | Some r => ret r
    end;
  sft ← load_tractogram validated_path reference;
  match sft with
  | LoadedSft sft =>
      if sft_bool sft then
        (if has_dismatrix sft
         then logging_info "Dissimilarity matrix already present in the tractogram data."
         else ret tt);;
        ret sft
      else raise (ValueError ("Failed to load tractogram from " +:+ validated_path +:+ "."))
  | LoadedFalse =>
      raise (ValueError ("Failed to load tractogram from " +:+ validated_path +:+ "."))
  end.

(** The generator of [read_csv] handed to [sorted]. *)
Definition collect_csv_paths (resolved_path : string) : M (list string) :=
  names ← os_listdir resolved_path;
  kept ← filter_list
            (λ name,
               isfile ← os_path_isfile (os_path.join resolved_path name);
               ret (isfile && Str.endswith (Str.lower name) ".csv"))
            names;
  ret (Str.sorted (map (os_path.join resolved_path) kept)).

(** The [with open(...)] block of the loop, up to the value of [chunk]. *)
Definition read_chunk (delimiter : ascii) (has_header : bool) (encoding : string)
    (csv_path : string) : M np.ndarray :=
  csv_file ← open_read csv_path encoding;
  if has_header then
    rows ← lift (csv.DictReader csv_file delimiter);
    lift (np.asarray (map csv.dict_values rows))
  else
    rows ← lift (csv.reader csv_file delimiter);
    lift (np.asarray (map (map csv.VStr) rows)).

(** The loop of [read_csv] over [csv_paths] and what follows it. *)
Definition stack_chunks (delimiter : ascii) (has_header : bool) (encoding : string)
    (csv_paths : list string) : M (np.ndarray * np.ndarray) :=
  data_chunks ←
    for_each
      (λ data_chunks csv_path,
         chunk ← read_chunk delimiter has_header encoding csv_path;
         if (np.size chunk =? 0)%nat then ret data_chunks
         else ret (data_chunks ++ [chunk]))
      csv_paths [];
  match data_chunks with
  | [] => ret (np.empty [0; 3], np.empty [0; 0])
  | _ =>
      data ← lift (np.concatenate data_chunks);
      coordinates ← lift (np.columns_to 3 data);
      attributes ← lift (np.columns_from 3 data);
      ret (coordinates, attributes)
  end.

Definition read_csv (file_path : string) (delimiter : ascii) (has_header : bool)
    (encoding : string) : M (np.ndarray * np.ndarray) :=
  resolved_path ← os_path_expanduser file_path;
  isdir ← os_path_isdir resolved_path;
  csv_paths ←
    (if isdir then
       csv_paths ← collect_csv_paths resolved_path;
       match csv_paths with
       | [] => raise (ValueError ("No CSV files found in directory: " +:+ resolved_path))
       | _ =>
           logging_info ("Loading CSV files from directory " +:+ resolved_path +:+ " ...");;
           ret csv_paths
       end
     else
       validated_path ← validate_path resolved_path;
       if negb (Str.endswith (Str.lower validated_path) ".csv")
       then raise (ValueError ("File must be a CSV: " +:+ validated_path))
       else
         logging_info ("Loading CSV file from " +:+ validated_path +:+ " ...");;
         ret [validated_path]);
  stack_chunks delimiter has_header encoding csv_paths.

(** ** The vocabulary of the specification *)

(** The three error kinds of the specification, as the code raises them. *)
Definition NotFoundError (path : string) : exn :=
  FileNotFoundError ("The file " +:+ path +:+ " does not exist or is not a file.").

Definition EmptyInputError (directory : string) : exn :=
  ValueError ("No CSV files found in directory: " +:+ directory).

Definition InvalidFormatError (path : string) : exn :=
  ValueError ("File must be a CSV: " +:+ path).

Definition specified_error (e : exn) : Prop :=
  ∃ path, e = NotFoundError path ∨ e = EmptyInputError path ∨ e = InvalidFormatError path.

(** The exceptions that come from below [read_csv]: from [open], from the
    [csv] module and from numpy. *)
Definition raised_below (e : exn) : Prop :=
  match e with
  | FileNotFoundError msg => ∃ path, msg = "[Errno 2] No such file or directory: " +:+ path
  | ValueError msg =>
      (∃ after, ValueError msg = np.inhomogeneous after) ∨
      msg ∈ [ "need at least one array to concatenate";
              "zero-dimensional arrays cannot be concatenated";
              "all the input arrays must have same number of dimensions";
              "all the input array dimensions except for the concatenation axis must match exactly" ]
  | _ => True
  end.

(** The value a computation returns or the exception it raises. *)
Definition outcome {A} (m : M A) (w : world) : result A := fst (m w).

Definition is_regular (w : world) (path : string) : bool :=
  if resolve w path is Some (File _) then true else false.

Definition is_csv_name (name : string) : bool :=
  Str.endswith (Str.lower name) ".csv".

(** After the specification: the extension .csv, in any letter case. *)
Definition csv_extensions : list string :=
  [".csv"; ".csV"; ".cSv"; ".cSV"; ".Csv"; ".CsV"; ".CSv"; ".CSV"].

Definition has_csv_extension (name : string) : Prop :=
  ∃ stem extension, name = stem +:+ extension ∧ extension ∈ csv_extensions.

(** The names of a listing that [read_csv] keeps. *)
Definition csv_names (w : world) (directory : string) (names : list string) : list string :=
  List.filter (λ name, is_regular w (os_path.join directory name) && is_csv_name name) names.

(** The paths [read_csv] collects from a directory with the given listing. *)
Definition csv_paths_of (w : world) (directory : string) (names : list string)
  : list string :=
  Str.sorted (map (os_path.join directory) (csv_names w directory names)).

(** What [join] puts before a name that is not itself an absolute path. *)
Definition join_prefix (directory : string) : string :=
  if (directory =? "")%string || Str.endswith directory "/" then directory
  else directory +:+ "/".

(** Reference definition, after the specification: the files [read_csv]
    resolves its argument to, or the error it raises before any file is
    read.  [read_csv_outcome] relates the code to it. *)
Definition resolved_files (w : world) (file_path : string) : result (list string) :=
  let resolved := os_path.expanduser (env w) file_path in
  match resolve w resolved with
  | Some (Dir names) =>
      match csv_paths_of w resolved names with
      | [] => Raise (EmptyInputError resolved)
      | csv_paths => Ok csv_paths
      end
  | _ =>
      let validated := os_path.expanduser (env w) resolved in
      if is_regular w validated then
        if is_csv_name validated then Ok [validated]
        else Raise (InvalidFormatError validated)
      else Raise (NotFoundError validated)
  end.

(** No home directory begins with a tilde (home directories are absolute
    paths), so that an expanded path is not expanded again. *)
Definition tilde_free_homes (e : environ) : Prop :=
  (∀ h, HOME e = Some h → Str.startswith h "~" = false) ∧
  (∀ h, pw_dir_self e = Some h → Str.startswith h "~" = false) ∧
  (∀ name h, getpwnam e name = Some h → Str.startswith h "~" = false).

Definition numeric (a : np.ndarray) : Prop := np.dtype_of a = np.float64.

(** The extent of the second axis. *)
Definition ncols (a : np.ndarray) : nat := nth 1 (np.shape a) 0.

Definition nonempty (a : np.ndarray) : bool := negb (np.size a =? 0)%nat.

(** The chunk one file yields: what the loop body computes for it. *)
Definition chunk_of (w : world) (delimiter : ascii) (has_header : bool)
    (encoding : string) (csv_path : string) : result np.ndarray :=
  outcome (read_chunk delimiter has_header encoding csv_path) w.

(** Reference definition, after the specification: every file parsed
    into its chunk, in the order of the paths; the first failure is the
    failure of the whole.  [for_each_chunks_run] relates the loop of the
    code to it. *)
Fixpoint all_chunks (w : world) (delimiter : ascii) (has_header : bool)
    (encoding : string) (csv_paths : list string) : result (list np.ndarray) :=
  match csv_paths with
  | [] => Ok []
  | csv_path :: rest =>
      match chunk_of w delimiter has_header encoding csv_path with
      | Raise e => Raise e
      | Ok chunk =>
          match all_chunks w delimiter has_header encoding rest with
          | Raise e => Raise e
          | Ok chunks => Ok (chunk :: chunks)
          end
      end
  end.

(** Reference definition, after the specification: the first three
    columns, and the remaining ones. *)
Definition split_columns (data : np.ndarray) : result (np.ndarray * np.ndarray) :=
  result_bind (np.columns_to 3 data) (λ coordinates,
  result_bind (np.columns_from 3 data) (λ attributes,
  Ok (coordinates, attributes))).

(** Reference definition, after the specification: row-wise
    concatenation of the non-empty chunks, then the split; the two empty
    arrays when no chunk is non-empty.  [stack_chunks_run] relates the
    code to it. *)
Definition stacked (chunks : list np.ndarray) : result (np.ndarray * np.ndarray) :=
  match List.filter nonempty chunks with
  | [] => Ok (np.empty [0; 3], np.empty [0; 0])
  | kept => result_bind (np.concatenate kept) split_columns
  end.

(** A file yields zero data rows: its chunk has no row. *)
Definition yields_no_rows (w : world) (delimiter : ascii) (has_header : bool)
    (encoding : string) (csv_path : string) : Prop :=
  ∃ chunk, chunk_of w delimiter has_header encoding csv_path = Ok chunk ∧
           np.rows chunk = [].

(** The world after one more message is logged. *)
Definition with_log (w : world) (msg : string) : world :=
  World (env w) (resolve w) (dipy_load w) (dipy_messages w) (log w ++ [msg]) (load_calls w).

(** Two worlds with the same environment and the same files, whose
    directories list the same names, possibly in another order. *)
Definition same_node (n n' : option node) : Prop :=
  match n, n' with
  | Some (Dir names), Some (Dir names') => names ≡ₚ names'
  | _, _ => n = n'
  end.

Definition same_files (w w' : world) : Prop :=
  env w = env w' ∧ ∀ path, same_node (resolve w path) (resolve w' path).

(** ** A sample file system *)

Module Sample.

Definition nl : string := String LF "".

Definition is_alnum (c : ascii) : bool :=
  let n := N_of_ascii c in
  ((48 <=? n) && (n <=? 57) || (65 <=? n) && (n <=? 90) || (97 <=? n) && (n <=? 122))%N.

(** [encodings.normalize_encoding] on the lower-cased name: runs of
    characters that are neither letters, digits nor dots become one
    underscore, and are dropped at both ends. *)
Fixpoint normalize_from (punct started : bool) (s : string) : string :=
  match s with
  | EmptyString => EmptyString
  | String c s' =>
      if is_alnum c || Ascii.eqb c "."%char then
        if punct && started then String "_"%char (String c (normalize_from false true s'))
        else String c (normalize_from false true s')
      else normalize_from true started s'
  end.

Definition normalize_encoding (encoding : string) : string :=
  normalize_from false false (Str.lower encoding).

(** The names under which Python knows UTF-8, ASCII, Latin-1 and
    cp1252. *)
Definition utf_8_names : list string :=
  ["utf_8"; "utf8"; "u8"; "utf"; "cp65001"; "utf8_ucs2"; "utf8_ucs4"].

Definition ascii_names : list string :=
  ["ascii"; "us_ascii"; "646"; "ansi_x3.4_1968"; "ansi_x3_4_1968"; "ansi_x3.4_1986";
   "cp367"; "csascii"; "ibm367"; "iso646_us"; "iso_646.irv_1991"; "iso_ir_6"; "us"].

Definition latin_1_names : list string :=
  ["latin_1"; "latin1"; "latin"; "l1"; "iso_8859_1"; "iso8859_1"; "iso8859"; "8859";
   "cp819"; "csisolatin1"; "ibm819"; "iso_8859_1_1987"; "iso_ir_100"].

Definition cp1252_names : list string := ["cp1252"; "1252"; "windows_1252"].

Definition names (codecs : list string) (encoding : string) : bool :=
  bool_decide (normalize_encoding encoding ∈ codecs).

(** A file of ASCII text.  The sample knows the four codecs above, which
    all decode such a file to the same text. *)
Definition text_file (text : string) : node :=
  File (λ encoding,
          if names (utf_8_names ++ ascii_names ++ latin_1_names ++ cp1252_names) encoding
          then inr text
          else inl (UnknownEncoding ("unknown encoding: " +:+ encoding))).

(** A file written in Latin-1 whose first byte is 0xE9, an e with an
    acute accent, before a rest of ASCII text: UTF-8 and ASCII refuse
    the byte. *)
Definition latin_1_file (rest : string) : node :=
  File (λ encoding,
          if names (latin_1_names ++ cp1252_names) encoding
          then inr (String "233"%char rest)
          else if names utf_8_names encoding
          then inl (UndecodableBytes
                      "'utf-8' codec can't decode byte 0xe9 in position 0: invalid continuation byte")
          else if names ascii_names encoding
          then inl (UndecodableBytes
                      "'ascii' codec can't decode byte 0xe9 in position 0: ordinal not in range(128)")
          else inl (UnknownEncoding ("unknown encoding: " +:+ encoding))).

Definition files (listing : list string) : gmap string node :=
  list_to_map
    [ ("/data", Dir listing);
      ("/data/A.csv", text_file ("x,y,z" +:+ nl +:+ "1,2,3" +:+ nl));
      ("/data/B.csv", text_file ("x,y,z" +:+ nl +:+ "4,5,6" +:+ nl));
      ("/empty", Dir []);
      ("/notes.txt", text_file "remember the milk");
      ("/home/user/points.CSV", text_file ("x,y,z,w" +:+ nl +:+ "1,2,3,4" +:+ nl));
      ("/mixed", Dir ["wide.csv"; "narrow.csv"]);
      ("/mixed/wide.csv", text_file ("a,b,c,d" +:+ nl +:+ "1,2,3,4" +:+ nl));
      ("/mixed/narrow.csv", text_file ("a,b" +:+ nl +:+ "5,6" +:+ nl));
      ("/headers", Dir ["only_header.csv"]);
      ("/headers/only_header.csv", text_file ("x,y,z" +:+ nl));
      ("/tracts/bundle.trk", text_file "");
      ("/tracts/bundle.tck", text_file "") ].

Definition environment : environ :=
  Environ (Some "/home/user") (Some "/home/user") (λ _, None).

Definition dipy (path : string) (ref : Reference) : result loaded :=
  Ok (LoadedSft (Sft true (Some ["dismatrix"]))).

Definition dipy_says (path : string) (ref : Reference) : list string :=
  ["dipy: loading " +:+ path].

(** The directory [/data] lists [B.csv] before [A.csv]. *)
Definition w0 : world :=
  World environment (λ path, files ["B.csv"; "A.csv"] !! path) dipy dipy_says [] [].

(** The same files, [/data] listed in the other order. *)
Definition w1 : world :=
  World environment (λ path, files ["A.csv"; "B.csv"] !! path) dipy dipy_says [] [].

End Sample.

(** ** The other readers and the writers

    [read_mesh], [read_nifti], [save_tractogram_from_streamlines] and
    [save_tractogram] hand their work to trimesh and dipy.  What these
    libraries return or raise is given by the session; every call made to
    them is recorded, in order. *)

(** An object of one of the libraries, known by identity only. *)
Inductive object : Type :=
  | Object (id : nat).

Inductive Space : Type :=
  | RASMM
  | VOXMM
  | VOX.

(** The arguments of the constructor [StatefulTractogram(...)]. *)
Record sft_arguments : Type := SftArguments {
  arg_streamlines : object;
  arg_reference : Reference;
  arg_space : Space;
  arg_data_per_streamline : list (string * object)
}.

Inductive library_call : Type :=
  | Call_load_mesh (path : string)
  | Call_load_nifti (path : string)
  | Call_StatefulTractogram (args : sft_arguments)
  | Call_save_tractogram (sft : StatefulTractogram) (path : string).

Record libraries : Type := Libraries {
  trimesh_load_mesh : string → result object;
  dipy_load_nifti : string → result (object * object);
  new_StatefulTractogram : sft_arguments → result StatefulTractogram;
  dipy_save_tractogram : StatefulTractogram → string → result unit;
  library_messages : library_call → list string;
      (* what the library itself logs during a call *)
  dipy_save_writes : StatefulTractogram → string →
                     (string → option node) → string → option node
      (* the file system after dipy has saved, from the one before *)
}.

Record session : Type := Session {
  io : world;
  libs : libraries;
  calls : list library_call
}.

Definition SM (A : Type) : Type := session → result A * session.

Definition sret {A} (a : A) : SM A := λ s, (Ok a, s).
Definition sbind {A B} (m : SM A) (k : A → SM B) : SM B :=
  λ s, match m s with
       | (Ok a, s') => k a s'
       | (Raise e, s') => (Raise e, s')
       end.

(** A computation of the world, run inside the session. *)
Definition in_world {A} (m : M A) : SM A :=
  λ s, let '(r, w') := m (io s) in (r, Session w' (libs s) (calls s)).

(** What a call does to the files: only saving writes. *)
Definition library_writes (l : libraries) (c : library_call)
  : (string → option node) → string → option node :=
  match c with
  | Call_save_tractogram sft path => dipy_save_writes l sft path
  | _ => λ fs, fs
  end.

(** The world after a library has run a call: it has logged what it
    logs and written what it writes. *)
Definition after_call (l : libraries) (c : library_call) (w : world) : world :=
  World (env w) (library_writes l c (resolve w)) (dipy_load w) (dipy_messages w)
    (log w ++ library_messages l c) (load_calls w).

(** A call to a library: recorded, run, and answered as the library
    answers. *)
Definition call_library {A} (c : library_call) (answer : libraries → result A) : SM A :=
  λ s, (answer (libs s),
        Session (after_call (libs s) c (io s)) (libs s) (calls s ++ [c])).

Declare Scope lib_scope.
Delimit Scope lib_scope with lib.
Notation "x ← m ; k" := (sbind m (λ x, k))
  (at level 20, m at level 100, k at level 200, only parsing) : lib_scope.
Notation "m ;; k" := (sbind m (λ _, k))
  (at level 100, k at level 200, only parsing, right associativity) : lib_scope.
Local Open Scope lib_scope.

(** The truth value of [texture]: [None] and the empty string are false. *)
Definition truthy (texture : option string) : bool :=
  match texture with
  | Some (String _ _) => true
  | _ => false
  end.

Definition read_mesh (file_path : string) (texture : option string)
  : SM (object * option string) :=
  validated_path ← in_world (validate_path file_path);
  in_world (logging_info ("Loading mesh from " +:+ validated_path +:+ " ..."));;
  mesh ← call_library (Call_load_mesh validated_path)
           (λ l, trimesh_load_mesh l validated_path);
  texture ←
    (match texture with
     | Some (String c t) =>
         texture ← in_world (validate_path (String c t));
         in_world (logging_info ("Validating texture from " +:+ texture +:+ " ..."));;
         sret (Some texture)
     | _ => sret texture
     end);
  sret (mesh, texture).

Definition read_nifti (file_path : string) : SM (object * object) :=
  validated_path ← in_world (validate_path file_path);
  in_world (logging_info ("Loading NIfTI file from " +:+ validated_path +:+ " ..."));;
  loaded ← call_library (Call_load_nifti validated_path)
             (λ l, dipy_load_nifti l validated_path);
  let '(nifti_img, affine) := loaded in
  sret (nifti_img, affine).

Definition save_tractogram_from_streamlines (streamlines : object)
    (reference : Reference) (embeddings : object) (file_path : string) : SM unit :=
  let args := SftArguments streamlines reference RASMM [("dismatrix", embeddings)] in
  sft ← call_library (Call_StatefulTractogram args) (λ l, new_StatefulTractogram l args);
  call_library (Call_save_tractogram sft file_path)
    (λ l, dipy_save_tractogram l sft file_path);;
  in_world (logging_info "Tractogram saved successfully.").

Definition save_tractogram (sft : StatefulTractogram) (file_path : string) : SM unit :=
  validated_path ← in_world (os_path_expanduser file_path);
  in_world (logging_info ("Saving tractogram to " +:+ validated_path +:+ " ..."));;
  call_library (Call_save_tractogram sft validated_path)
    (λ l, dipy_save_tractogram l sft validated_path);;
  in_world (logging_info "Tractogram saved successfully.").

Local Close Scope lib_scope.

(** The value a computation of the session returns, or what it raises. *)
Definition soutcome {A} (m : SM A) (s : session) : result A := fst (m s).

(** The column names a [DictReader] row has for a header: the field
    names in order of first appearance. *)
Definition add_key (keys : list string) (key : string) : list string :=
  if bool_decide (key ∈ keys) then keys else keys ++ [key].

Definition distinct (fieldnames : list string) : list string :=
  fold_left add_key fieldnames [].

Definition nonblank (records : list (list string)) : list (list string) :=
  List.filter (λ row, negb (csv.is_blank row)) records.

(** What [read_tractogram] raises when dipy hands back a false value. *)
Definition failed_to_load (validated_path : string) : exn :=
  ValueError ("Failed to load tractogram from " +:+ validated_path +:+ ".").

(** A world whose only file is a tractogram named in capitals. *)
Definition capitals_world : world :=
  World Sample.environment
        (λ path, if (path =? "/tracts/BUNDLE.TRK")%string
                 then Some (Sample.text_file "") else None)
        Sample.dipy Sample.dipy_says [] [].

(** A cell that is not a list. *)
Definition scalar (v : csv.value) : Prop := np.is_scalar v = true.

(** A world with two irregular files: a header that repeats a name, over
    a short row, a blank line and a full row; and a row longer than its
    header. *)
Definition irregular_world : world :=
  World Sample.environment
        (λ path,
           if (path =? "/odd/repeated.csv")%string then
             Some (Sample.text_file
                     ("x,y,x" +:+ Sample.nl +:+ "1,2" +:+ Sample.nl +:+ Sample.nl
                      +:+ "7,8,9" +:+ Sample.nl))
           else if (path =? "/odd/long.csv")%string then
             Some (Sample.text_file ("x,y" +:+ Sample.nl +:+ "1,2,3" +:+ Sample.nl))
           else None)
        Sample.dipy Sample.dipy_says [] [].

(** The chunk of a file that holds the given records, each of [n] fields. *)
Definition chunk_of_records (n : nat) (records : list (list string)) : np.ndarray :=
  np.Array [length records; n] np.str_ (map (map csv.VStr) records).

(** The sample files, [/data] listing also entries that are not CSV
    files: a name with another extension and a name that resolves to
    nothing. *)
Definition cluttered_world : world :=
  World Sample.environment
        (λ path, Sample.files ["B.csv"; "README.md"; "A.csv"; "gone.csv"] !! path)
        Sample.dipy Sample.dipy_says [] [].

(** A directory of three files, listed out of order, the second of which
    is not UTF-8. *)
Definition batch_world : world :=
  World Sample.environment
        (λ path,
           (list_to_map
              [ ("/batch", Dir ["c.csv"; "a.csv"; "b.csv"]);
                ("/batch/a.csv", Sample.text_file ("x,y,z" +:+ Sample.nl +:+ "1,2,3" +:+ Sample.nl));
                ("/batch/b.csv", Sample.latin_1_file (",y,z" +:+ Sample.nl +:+ "4,5,6" +:+ Sample.nl));
                ("/batch/c.csv", Sample.text_file ("x,y,z" +:+ Sample.nl +:+ "7,8,9" +:+ Sample.nl)) ]
            : gmap string node) !! path)
        Sample.dipy Sample.dipy_says [] [].

(** A directory whose names carry the extension in several cases, beside
    names that do not end in it and a subdirectory that does. *)
Definition mixed_case_world : world :=
  World Sample.environment
        (λ path,
           (list_to_map
              [ ("/scans", Dir ["b.Csv"; "notes.txt"; "A.CSV"; "c.csv.bak"; "old.csv"; "d.cSV"]);
                ("/scans/b.Csv", Sample.text_file ("x,y,z" +:+ Sample.nl +:+ "4,5,6" +:+ Sample.nl));
                ("/scans/notes.txt", Sample.text_file "remember the milk");
                ("/scans/A.CSV", Sample.text_file ("x,y,z" +:+ Sample.nl +:+ "1,2,3" +:+ Sample.nl));
                ("/scans/c.csv.bak", Sample.text_file ("x,y,z" +:+ Sample.nl));
                ("/scans/old.csv", Dir []);
                ("/scans/d.cSV", Sample.text_file ("x,y,z" +:+ Sample.nl +:+ "7,8,9" +:+ Sample.nl)) ]
            : gmap string node) !! path)
        Sample.dipy Sample.dipy_says [] [].

(** A world whose only file begins with a blank line. *)
Definition blank_header_world : world :=
  World Sample.environment
        (λ path,
           if (path =? "/odd/blank_header.csv")%string
           then Some (Sample.text_file (Sample.nl +:+ "abc,def" +:+ Sample.nl))
           else None)
        Sample.dipy Sample.dipy_says [] [].


(** A session over the sample world. *)
Definition sample_libraries : libraries :=
  Libraries (λ path, Ok (Object 1))
            (λ path, Ok (Object 2, Object 3))
            (λ args, Ok (Sft true (Some (map fst (arg_data_per_streamline args)))))
            (λ sft path, Ok tt)
            (λ c, match c with
                  | Call_load_mesh path => ["trimesh: loading " +:+ path]
                  | Call_save_tractogram _ path => ["dipy: saving " +:+ path]
                  | _ => []
                  end)
            (λ sft path fs p,
               if (p =? path)%string then Some (Sample.text_file "") else fs p).

Definition sample_session : session := Session Sample.w0 sample_libraries [].

(** * Properties *)

(** ** The [csv] model on small inputs *)

Example reader_quoted_field :
  csv.reader (String csv.quotechar "a,b" +:+ String csv.quotechar ",c" +:+ Sample.nl)
    ","%char
  = Ok [["a,b"; "c"]].
Proof. reflexivity. Qed.

Example reader_blank_line_is_empty_record :
  csv.reader ("a,b" +:+ Sample.nl +:+ Sample.nl +:+ "1,2" +:+ Sample.nl) ","%char
  = Ok [["a"; "b"]; []; ["1"; "2"]].
Proof. reflexivity. Qed.

Example reader_crlf_and_missing_final_newline :
  csv.reader ("a;b" +:+ String CR (String LF "") +:+ "1;2") ";"%char
  = Ok [["a"; "b"]; ["1"; "2"]].
Proof. reflexivity. Qed.

Example DictReader_short_and_long_rows :
  match csv.DictReader ("x,y" +:+ Sample.nl +:+ "1" +:+ Sample.nl +:+ Sample.nl
                        +:+ "1,2,3" +:+ Sample.nl) ","%char with
  | Ok rows => Ok (map csv.dict_values rows)
  | Raise e => Raise e
  end
  = Ok [ [csv.VStr "1"; csv.VNone];
         [csv.VStr "1"; csv.VStr "2"; csv.VList ["3"]] ].
Proof. reflexivity. Qed.

Example asarray_refuses_ragged_rows :
  np.asarray [[csv.VStr "1"; csv.VStr "2"]; []] = Raise (np.inhomogeneous "1").
Proof. reflexivity. Qed.

Example expanduser_home :
  os_path.expanduser Sample.environment "~/points.CSV" = "/home/user/points.CSV" ∧
  os_path.expanduser Sample.environment "~nobody/x" = "~nobody/x" ∧
  os_path.join "/data" "A.csv" = "/data/A.csv".
Proof. repeat split. Qed.

(** ** Strings *)

Lemma startswith_nil s : Str.startswith s "" = true.
Proof. by destruct s. Qed.

Lemma startswith_cons c d s pre :
  Str.startswith (String c s) (String d pre)
  = if Ascii.eqb d c then Str.startswith s pre else false.
Proof.
  unfold Str.startswith.
  change (String.prefix (String d pre) (String c s))
    with (if ascii_dec d c then String.prefix pre s else false).
  destruct (ascii_dec d c) as [->|Hne].
  - by rewrite Ascii.eqb_refl.
  - apply Ascii.eqb_neq in Hne. by rewrite Hne.
Qed.

Lemma startswith_tilde_cases (p : string) :
  Str.startswith p "~" = false ∨ ∃ rest, p = String "~"%char rest.
Proof.
  destruct p as [|c rest]; [by left|].
  rewrite startswith_cons. destruct (Ascii.eqb_spec "~"%char c) as [<-|].
  - right; eauto.
  - by left.
Qed.

Lemma endswith_nil suf : Str.endswith "" suf = ("" =? suf)%string || false.
Proof. reflexivity. Qed.

Lemma endswith_cons c s suf :
  Str.endswith (String c s) suf = (String c s =? suf)%string || Str.endswith s suf.
Proof. reflexivity. Qed.

Lemma endswith_length s suf :
  Str.endswith s suf = true → (String.length suf <= String.length s)%nat.
Proof.
  induction s as [|c s IH].
  - rewrite endswith_nil, orb_false_r. by intros <-%String.eqb_eq.
  - rewrite endswith_cons. intros [<-%String.eqb_eq|H%IH]%orb_true_iff; simpl; lia.
Qed.

Lemma endswith_same_length s a b :
  Str.endswith s a = true → Str.endswith s b = true →
  String.length a = String.length b → a = b.
Proof.
  induction s as [|c s IH].
  - rewrite !endswith_nil, !orb_false_r.
    intros <-%String.eqb_eq <-%String.eqb_eq. done.
  - rewrite !endswith_cons.
    intros [Ha%String.eqb_eq|Ha]%orb_true_iff [Hb%String.eqb_eq|Hb]%orb_true_iff Hlen.
    + congruence.
    + subst a. apply endswith_length in Hb. simpl in Hlen. lia.
    + subst b. apply endswith_length in Ha. simpl in Hlen. lia.
    + by apply IH.
Qed.



Lemma lower_app a b : Str.lower (a +:+ b) = Str.lower a +:+ Str.lower b.
Proof.
  induction a as [|c a IH]; [done|].
  change (String c a +:+ b) with (String c (a +:+ b)). cbn [Str.lower].
  by rewrite IH.
Qed.

Lemma endswith_refl s : Str.endswith s s = true.
Proof. destruct s; [done|]. by rewrite endswith_cons, String.eqb_refl. Qed.

Lemma endswith_app a b suf :
  Str.endswith b suf = true → Str.endswith (a +:+ b) suf = true.
Proof.
  intros H. induction a as [|c a IH]; [done|].
  change (String c a +:+ b) with (String c (a +:+ b)).
  rewrite endswith_cons, IH. apply orb_true_r.
Qed.

Lemma endswith_inv s suf : Str.endswith s suf = true → ∃ pre, s = pre +:+ suf.
Proof.
  induction s as [|c s IH].
  - rewrite endswith_nil, orb_false_r. intros <-%String.eqb_eq. by exists "".
  - rewrite endswith_cons. intros [<-%String.eqb_eq|(pre & ->)%IH]%orb_true_iff.
    + by exists "".
    + by exists (String c pre).
Qed.

Lemma lower_split s : ∀ a b,
  Str.lower s = a +:+ b → ∃ s1 s2, s = s1 +:+ s2 ∧ Str.lower s1 = a ∧ Str.lower s2 = b.
Proof.
  induction s as [|c s IH]; intros a b.
  - destruct a; [|discriminate]. intros H. exists "", "". repeat split. exact H.
  - destruct a as [|x a].
    + intros H. exists "", (String c s). repeat split. exact H.
    + change (Str.lower (String c s)) with (String (Str.lower_char c) (Str.lower s)).
      change (String x a +:+ b) with (String x (a +:+ b)).
      intros [= <- (s1 & s2 & -> & <- & <-)%IH].
      by exists (String c s1), s2.
Qed.

Lemma lower_char_cases (c : ascii) :
  (Str.lower_char c = "."%char → c = "."%char) ∧
  (Str.lower_char c = "c"%char → c = "c"%char ∨ c = "C"%char) ∧
  (Str.lower_char c = "s"%char → c = "s"%char ∨ c = "S"%char) ∧
  (Str.lower_char c = "v"%char → c = "v"%char ∨ c = "V"%char).
Proof.
  destruct c as [[] [] [] [] [] [] [] []]; vm_compute;
    (split; [|split; [|split]]); intros H; try discriminate H; auto.
Qed.

Lemma lower_csv_extension extension :
  Str.lower extension = ".csv" ↔ extension ∈ csv_extensions.
Proof.
  split.
  - destruct extension as [|c0 [|c1 [|c2 [|c3 [|c4 rest]]]]]; try discriminate.
    cbn [Str.lower]. intros [= H0 H1 H2 H3].
    apply lower_char_cases in H0 as ->.
    apply lower_char_cases in H1 as [-> | ->];
      apply lower_char_cases in H2 as [-> | ->];
      apply lower_char_cases in H3 as [-> | ->];
      unfold csv_extensions; rewrite !elem_of_cons; auto 10.
  - unfold csv_extensions. rewrite !elem_of_cons, elem_of_nil.
    intros [->|[->|[->|[->|[->|[->|[->|[->|[]]]]]]]]]; reflexivity.
Qed.

(** The extension test of the code is the case-insensitive test of the
    specification. *)
Lemma is_csv_name_spec name : is_csv_name name = true ↔ has_csv_extension name.
Proof.
  unfold is_csv_name, has_csv_extension. split.
  - intros (pre & (stem & extension & -> & _ & Hext)%lower_split)%endswith_inv.
    exists stem, extension. split; [done|]. by apply lower_csv_extension.
  - intros (stem & extension & -> & Hext%lower_csv_extension).
    rewrite lower_app, Hext. apply endswith_app, endswith_refl.
Qed.

Lemma le_app_mono (p a b : string) : String.le a b → String.le (p +:+ a) (p +:+ b).
Proof.
  unfold String.le, String.leb. intros H. induction p as [|c p IH]; [done|].
  change ((String c p) +:+ a) with (String c (p +:+ a)).
  change ((String c p) +:+ b) with (String c (p +:+ b)).
  simpl. unfold Ascii.compare. by rewrite N.compare_refl.
Qed.

(** ** [os.path] *)

Lemma rstrip_head ch c s :
  Str.rstrip ch (String c s) = "" ∨ ∃ r, Str.rstrip ch (String c s) = String c r.
Proof.
  simpl. destruct (Str.rstrip ch s); [|right; eauto].
  destruct (Ascii.eqb c ch); [by left|right; eauto].
Qed.

Lemma break_at_tail ch s :
  snd (Str.break_at ch s) = "" ∨ ∃ t, snd (Str.break_at ch s) = String ch t.
Proof.
  induction s as [|c s IH]; simpl; [by left|].
  destruct (Ascii.eqb c ch) eqn:E.
  - apply Ascii.eqb_eq in E as ->. right; eauto.
  - destruct (Str.break_at ch s); simpl in *. done.
Qed.

Lemma expanduser_no_tilde e p :
  Str.startswith p "~" = false → os_path.expanduser e p = p.
Proof.
  destruct p as [|c rest]; [done|].
  rewrite startswith_cons, startswith_nil.
  destruct (Ascii.eqb_spec "~"%char c) as [<-|Hne]; [discriminate|].
  intros _. destruct c as [[] [] [] [] [] [] [] []]; try reflexivity.
  by destruct Hne.
Qed.

Lemma expanded_home_no_tilde h tail :
  Str.startswith h "~" = false →
  (tail = "" ∨ ∃ t, tail = String os_path.sep t) →
  Str.startswith
    (match Str.rstrip os_path.sep h +:+ tail with "" => "/" | r => r end) "~" = false.
Proof.
  intros Hh Htail. destruct h as [|c h].
  - simpl. destruct Htail as [->|[t ->]]; reflexivity.
  - destruct (rstrip_head os_path.sep c h) as [->|[r ->]].
    + destruct Htail as [->|[t ->]]; reflexivity.
    + change (String c r +:+ tail) with (String c (r +:+ tail)).
      cbv beta iota. rewrite startswith_cons in Hh. rewrite startswith_cons.
      destruct (Ascii.eqb "~"%char c); [|done].
      by rewrite startswith_nil in Hh.
Qed.

Lemma expanduser_fixed_or_no_tilde e p :
  tilde_free_homes e →
  os_path.expanduser e p = p ∨ Str.startswith (os_path.expanduser e p) "~" = false.
Proof.
  intros (Hhome & Hself & Hnam).
  destruct (startswith_tilde_cases p) as [H|[rest ->]].
  { left. by apply expanduser_no_tilde. }
  unfold os_path.expanduser.
  pose proof (break_at_tail os_path.sep rest) as Htail.
  destruct (Str.break_at os_path.sep rest) as [name tail]; simpl in Htail.
  destruct name as [|c name].
  - destruct (HOME e) as [h|] eqn:E1.
    + right. apply expanded_home_no_tilde; auto.
    + destruct (pw_dir_self e) as [h|] eqn:E2; [|by left].
      right. apply expanded_home_no_tilde; auto.
  - destruct (getpwnam e (String c name)) as [h|] eqn:E3; [|by left].
    right. apply expanded_home_no_tilde; eauto.
Qed.

(** Where no home directory begins with a tilde, or the path has none to
    expand, expanding twice is expanding once. *)
Lemma expanduser_idempotent e p :
  tilde_free_homes e ∨ Str.startswith p "~" = false →
  os_path.expanduser e (os_path.expanduser e p) = os_path.expanduser e p.
Proof.
  intros [H|H].
  - destruct (expanduser_fixed_or_no_tilde e p H) as [E|H'].
    + by rewrite !E.
    + by apply expanduser_no_tilde.
  - by rewrite !(expanduser_no_tilde e p H).
Qed.

(** ** Running the computations *)

Lemma validate_path_run path w :
  validate_path path w =
  (if is_regular w (os_path.expanduser (env w) path)
   then Ok (os_path.expanduser (env w) path)
   else Raise (NotFoundError (os_path.expanduser (env w) path)), w).
Proof.
  unfold validate_path, os_path_expanduser, os_path_exists, os_path_isfile,
    is_regular, NotFoundError, bind, get_env, stat, ret, raise.
  simpl.
  destruct (resolve w (os_path.expanduser (env w) path)) as [[| |]|] eqn:E;
    simpl; rewrite ?E; reflexivity.
Qed.

Lemma read_chunk_run d h enc path w :
  read_chunk d h enc path w = (chunk_of w d h enc path, w).
Proof.
  unfold chunk_of, outcome, read_chunk, open_read, bind, stat, ret, raise, lift.
  destruct (resolve w path) as [[read| |]|]; try reflexivity.
  destruct (read enc) as [e|text]; [reflexivity|].
  destruct h.
  - destruct (csv.DictReader text d); reflexivity.
  - destruct (csv.reader text d); reflexivity.
Qed.

Lemma for_each_chunks_run d h enc paths acc w :
  for_each
    (λ data_chunks csv_path,
       chunk ← read_chunk d h enc csv_path;
       if (np.size chunk =? 0)%nat then ret data_chunks
       else ret (data_chunks ++ [chunk]))
    paths acc w
  = (match all_chunks w d h enc paths with
     | Ok chunks => Ok (acc ++ List.filter nonempty chunks)
     | Raise e => Raise e
     end, w).
Proof.
  revert acc. induction paths as [|p paths IH]; intros acc.
  - cbn [for_each all_chunks List.filter]. unfold ret. by rewrite app_nil_r.
  - cbn [for_each all_chunks]. unfold bind at 1 2. rewrite read_chunk_run.
    destruct (chunk_of w d h enc p) as [chunk|e]; [|reflexivity].
    destruct (np.size chunk =? 0)%nat eqn:E; unfold ret at 1; rewrite IH;
      destruct (all_chunks w d h enc paths) as [chunks|e]; try reflexivity;
      cbn [List.filter]; unfold nonempty; rewrite E; cbn [negb].
    + reflexivity.
    + by rewrite <- app_assoc.
Qed.

Lemma stack_chunks_run d h enc paths w :
  stack_chunks d h enc paths w
  = (result_bind (all_chunks w d h enc paths) stacked, w).
Proof.
  unfold stack_chunks, bind at 1. rewrite for_each_chunks_run.
  destruct (all_chunks w d h enc paths) as [chunks|e]; [|reflexivity].
  simpl. unfold stacked, split_columns.
  destruct (List.filter nonempty chunks) as [|c kept]; [reflexivity|].
  unfold bind, lift, ret, result_bind.
  destruct (np.concatenate (c :: kept)) as [data|e]; [|reflexivity].
  destruct (np.columns_to 3 data); [|reflexivity].
  destruct (np.columns_from 3 data); reflexivity.
Qed.

(** [read_csv] on a path that is not a directory. *)
Lemma read_csv_file_run path d h enc w :
  let resolved := os_path.expanduser (env w) path in
  let validated := os_path.expanduser (env w) resolved in
  (∀ names, resolve w resolved ≠ Some (Dir names)) →
  read_csv path d h enc w =
    if is_regular w validated then
      if is_csv_name validated then
        stack_chunks d h enc [validated]
          (with_log w ("Loading CSV file from " +:+ validated +:+ " ..."))
      else (Raise (InvalidFormatError validated), w)
    else (Raise (NotFoundError validated), w).
Proof.
  intros resolved validated Hdir.
  unfold read_csv, os_path_expanduser, os_path_isdir.
  unfold bind at 1 2 3 4 5. unfold get_env, stat, ret at 1 2.
  fold resolved.
  destruct (resolve w resolved) as [[| names |]|] eqn:E;
    try (by destruct (Hdir names)).
  all: unfold bind at 1 2; rewrite validate_path_run; fold validated;
    destruct (is_regular w validated); [|reflexivity];
    unfold is_csv_name; destruct (Str.endswith (Str.lower validated) ".csv");
    reflexivity.
Qed.

(** ** Which exceptions come from below *)

Lemma raised_below_not_specified e : raised_below e → ¬ specified_error e.
Proof.
  intros Hb (path & [ -> | [ -> | -> ] ]).
  - destruct Hb as (p & Hp). cbv in Hp. discriminate.
  - destruct Hb as [(after & H)|H].
    + cbv in H. discriminate.
    + rewrite !elem_of_cons, elem_of_nil in H.
      destruct H as [H|[H|[H|[H|[]]]]]; cbv in H; discriminate.
  - destruct Hb as [(after & H)|H].
    + cbv in H. discriminate.
    + rewrite !elem_of_cons, elem_of_nil in H.
      destruct H as [H|[H|[H|[H|[]]]]]; cbv in H; discriminate.
Qed.

Lemma parse_add_char_raises r c e :
  csv.parse_add_char r c = Raise e → ∃ msg, e = csv_Error msg.
Proof.
  unfold csv.parse_add_char. destruct (_ <=? _)%N; [|discriminate].
  intros [= <-]. eauto.
Qed.

Lemma add_input_raises r c e :
  csv.add_input r c = Raise e → ∃ msg, e = csv_Error msg.
Proof. destruct c; [apply parse_add_char_raises|discriminate]. Qed.

Lemma parse_process_char_raises d r c e :
  csv.parse_process_char d r c = Raise e → ∃ msg, e = csv_Error msg.
Proof.
  unfold csv.parse_process_char, csv.start_field.
  intros H.
  repeat match type of H with
         | context [match csv.st ?r with _ => _ end] => destruct (csv.st r)
         | context [if ?b then _ else _] => destruct b
         | context [match csv.add_input ?r ?c with _ => _ end] =>
             destruct (csv.add_input r c) eqn:?
         end;
    try discriminate; try (injection H as <-); eauto using add_input_raises.
Qed.

Lemma process_line_raises d line : ∀ r e,
  csv.process_line d r line = Raise e → ∃ msg, e = csv_Error msg.
Proof.
  induction line as [|c line IH]; intros r e; simpl.
  - apply parse_process_char_raises.
  - destruct (csv.parse_process_char d r (csv.Ch c)) eqn:E.
    + apply IH.
    + intros [= <-]. by eapply parse_process_char_raises.
Qed.

Lemma records_raises d lines : ∀ r e,
  csv.records d r lines = Raise e → ∃ msg, e = csv_Error msg.
Proof.
  induction lines as [|line lines IH]; intros r e; simpl.
  - destruct (_ || _); discriminate.
  - destruct (csv.process_line d r line) as [r'|e'] eqn:E.
    + destruct (csv.st r'); try apply IH.
      destruct (csv.records d csv.parse_reset lines) eqn:E'; [discriminate|].
      intros [= <-]. by eapply IH.
    + intros [= <-]. by eapply process_line_raises.
Qed.

Lemma asarray_raises nested e :
  np.asarray nested = Raise e → ∃ after, e = np.inhomogeneous after.
Proof.
  unfold np.asarray. destruct nested as [|first rest]; [discriminate|].
  destruct (negb _); [intros [= <-]; eauto|].
  destruct (concat _) as [|c0 cells]; [discriminate|].
  destruct (forallb np.is_scalar _); [discriminate|].
  destruct c0; try (intros [= <-]; eauto).
  destruct (forallb _ _); [discriminate|intros [= <-]; eauto].
Qed.

Lemma DictReader_raises text d e :
  csv.DictReader text d = Raise e → ∃ msg, e = csv_Error msg.
Proof.
  unfold csv.DictReader, csv.reader.
  destruct (csv.records d csv.parse_reset (readlines text)) as [[|? ?]|e'] eqn:E;
    try discriminate.
  intros [= <-]. by eapply records_raises.
Qed.

Lemma chunk_of_raises w d h enc path e :
  chunk_of w d h enc path = Raise e → raised_below e.
Proof.
  unfold chunk_of, outcome, read_chunk, open_read, bind, stat, ret, raise, lift.
  destruct (resolve w path) as [[read| |]|]; cbv beta iota zeta delta [fst];
    try (intros [= <-]; simpl; eauto; done).
  destruct (read enc) as [err|text]; cbv beta iota zeta delta [fst].
  { intros [= <-]. by destruct err. }
  destruct h.
  - destruct (csv.DictReader text d) as [rows|e'] eqn:E.
    + intros H. apply asarray_raises in H as (after & ->). left; eauto.
    + intros [= <-]. apply DictReader_raises in E as (msg & ->). done.
  - destruct (csv.reader text d) as [rows|e'] eqn:E.
    + intros H. apply asarray_raises in H as (after & ->). left; eauto.
    + intros [= <-]. apply records_raises in E as (msg & ->). done.
Qed.

Lemma all_chunks_raises w d h enc paths e :
  all_chunks w d h enc paths = Raise e → raised_below e.
Proof.
  induction paths as [|p paths IH]; simpl; [discriminate|].
  destruct (chunk_of w d h enc p) eqn:E.
  - destruct (all_chunks w d h enc paths); [discriminate|].
    intros [= <-]. by apply IH.
  - intros [= <-]. by eapply chunk_of_raises.
Qed.

Lemma check_all_raises first arrs e :
  np.check_all first arrs = Raise e →
  e = ValueError "all the input arrays must have same number of dimensions" ∨
  e = ValueError
        "all the input array dimensions except for the concatenation axis must match exactly".
Proof.
  induction arrs as [|a arrs IH]; simpl; [discriminate|].
  unfold np.check_against.
  destruct (negb (np.ndim a =? np.ndim first)%nat); [intros [= <-]; by left|].
  destruct (negb (bool_decide _)); [intros [= <-]; by right|]. done.
Qed.

Lemma concatenate_raises arrs e :
  np.concatenate arrs = Raise e → raised_below e.
Proof.
  unfold np.concatenate. destruct arrs as [|first rest].
  { intros [= <-]. right. set_solver. }
  destruct (np.shape first).
  { intros [= <-]. right. set_solver. }
  destruct (np.check_all first rest) eqn:E; [discriminate|].
  intros [= <-]. apply check_all_raises in E as [->| ->]; right; set_solver.
Qed.

Lemma split_columns_raises data e :
  split_columns data = Raise e → e = np.too_many_indices.
Proof.
  unfold split_columns, np.columns_to, np.columns_from, result_bind.
  destruct (np.shape data) as [|m [|n trailing]]; by intros [= <-].
Qed.

Lemma stacked_raises chunks e : stacked chunks = Raise e → raised_below e.
Proof.
  unfold stacked. destruct (List.filter nonempty chunks) as [|c kept]; [discriminate|].
  destruct (np.concatenate (c :: kept)) as [data|e'] eqn:E; simpl.
  - intros ->%split_columns_raises. done.
  - intros [= <-]. by eapply concatenate_raises.
Qed.

(** Whatever [stack_chunks] raises is none of the three specified errors. *)
Lemma stack_chunks_raises d h enc paths w e :
  outcome (stack_chunks d h enc paths) w = Raise e → ¬ specified_error e.
Proof.
  unfold outcome. rewrite stack_chunks_run. simpl. intros H.
  apply raised_below_not_specified.
  destruct (all_chunks w d h enc paths) eqn:E; simpl in H.
  - by eapply stacked_raises.
  - injection H as <-. by eapply all_chunks_raises.
Qed.

(** ** Paths that are not directories *)

Lemma sample_homes_tilde_free : tilde_free_homes Sample.environment.
Proof. repeat split; simpl; intros; simplify_eq; reflexivity. Qed.


Lemma chunk_of_same_files w w' d h enc path :
  resolve w path = resolve w' path → chunk_of w d h enc path = chunk_of w' d h enc path.
Proof.
  intros E. unfold chunk_of, outcome, read_chunk, open_read, bind, stat.
  cbv beta iota zeta. rewrite E. destruct (resolve w' path) as [[read| |]|]; try reflexivity.
  unfold ret, raise, lift. destruct (read enc) as [err|text]; [reflexivity|].
  destruct h; cbv beta iota zeta;
    [destruct (csv.DictReader text d)|destruct (csv.reader text d)]; reflexivity.
Qed.

Lemma all_chunks_same_files w w' d h enc paths :
  (∀ path, path ∈ paths → resolve w path = resolve w' path) →
  all_chunks w d h enc paths = all_chunks w' d h enc paths.
Proof.
  induction paths as [|p paths IH]; intros H; simpl; [done|].
  rewrite (chunk_of_same_files w w') by (apply H; set_solver).
  rewrite IH by (intros; apply H; set_solver). done.
Qed.














(** ** [read_tractogram] *)

Lemma read_tractogram_missing w file_path reference :
  is_regular w (os_path.expanduser (env w) file_path) = false →
  read_tractogram file_path reference w
  = (Raise (NotFoundError (os_path.expanduser (env w) file_path)), w).
Proof.
  intros H. unfold read_tractogram, bind at 1.
  by rewrite validate_path_run, H.
Qed.

Lemma read_tractogram_unnamed w file_path :
  let validated := os_path.expanduser (env w) file_path in
  is_regular w validated = true →
  Str.endswith validated ".trk" || Str.endswith validated ".trx" = false →
  read_tractogram file_path None w
  = (Raise reference_required,
     with_log w ("Loading tractogram from " +:+ validated +:+ " ...")).
Proof.
  intros validated Hreg Hname. unfold read_tractogram, bind at 1.
  rewrite validate_path_run. fold validated. rewrite Hreg.
  unfold bind at 1 2, logging_info. by rewrite Hname.
Qed.

Lemma read_tractogram_named_calls w file_path :
  let validated := os_path.expanduser (env w) file_path in
  is_regular w validated = true →
  Str.endswith validated ".trk" || Str.endswith validated ".trx" = true →
  load_calls (snd (read_tractogram file_path None w))
  = load_calls w ++ [(validated, RefStr "same")].
Proof.
  intros validated Hreg Hname. unfold read_tractogram, bind at 1.
  rewrite validate_path_run. fold validated. rewrite Hreg.
  unfold bind at 1 2, logging_info. rewrite Hname.
  unfold ret at 1, bind at 1, load_tractogram. cbn [load_calls dipy_load].
  destruct (dipy_load w validated (RefStr "same")) as [[|sft]|e]; try reflexivity.
  destruct (sft_bool sft); [|reflexivity].
  unfold bind, ret, logging_info. by destruct (has_dismatrix sft).
Qed.

(** C10. [read_tractogram] called without a reference returns a tractogram
    only for an existing regular file whose (expanded) path ends in .trk
    or .trx; for such a file dipy is asked to load it with the reference
    "same".  For any other existing regular file it raises the ValueError
    that asks for a reference image, and dipy is not called. *)
Theorem read_tractogram_without_reference (w : world) (file_path : string) :
  let validated := os_path.expanduser (env w) file_path in
  let named := Str.endswith validated ".trk" || Str.endswith validated ".trx" in
  (∀ sft, outcome (read_tractogram file_path None) w = Ok sft →
     is_regular w validated = true ∧ named = true) ∧
  (is_regular w validated = true → named = false →
     outcome (read_tractogram file_path None) w = Raise reference_required ∧
     load_calls (snd (read_tractogram file_path None w)) = load_calls w) ∧
  (is_regular w validated = true → named = true →
     load_calls (snd (read_tractogram file_path None w))
     = load_calls w ++ [(validated, RefStr "same")]).
Proof.
  intros validated named. repeat split.
  - destruct (is_regular w validated) eqn:Hreg; [done|].
    unfold outcome in H. by rewrite read_tractogram_missing in H.
  - destruct (is_regular w validated) eqn:Hreg.
    + destruct named eqn:Hname; [done|].
      unfold outcome in H. by rewrite read_tractogram_unnamed in H.
    + unfold outcome in H. by rewrite read_tractogram_missing in H.
  - unfold outcome. by rewrite read_tractogram_unnamed.
  - by rewrite read_tractogram_unnamed.
  - intros. by apply read_tractogram_named_calls.
Qed.

Lemma read_tractogram_without_reference_witness :
  (outcome (read_tractogram "/tracts/bundle.tck" None) Sample.w0 = Raise reference_required ∧
   load_calls (snd (read_tractogram "/tracts/bundle.tck" None Sample.w0)) = []) ∧
  load_calls (snd (read_tractogram "/tracts/bundle.trk" None Sample.w0))
  = [("/tracts/bundle.trk", RefStr "same")].
Proof.
  split.
  - apply (read_tractogram_without_reference Sample.w0 "/tracts/bundle.tck"); reflexivity.
  - apply (read_tractogram_without_reference Sample.w0 "/tracts/bundle.trk"); reflexivity.
Defined.

(** ** Directories *)

Lemma filter_csv_names_run w directory names :
  filter_list
    (λ name,
       isfile ← os_path_isfile (os_path.join directory name);
       ret (isfile && Str.endswith (Str.lower name) ".csv"))
    names w
  = (Ok (csv_names w directory names), w).
Proof.
  induction names as [|name names IH]; [reflexivity|].
  cbn [filter_list]. unfold bind at 1 2 3, os_path_isfile at 1, bind at 1, stat, ret at 1 2.
  rewrite IH. unfold csv_names, is_regular, is_csv_name, ret. cbn [List.filter].
  by destruct (resolve w (os_path.join directory name)) as [[| |]|]; cbn [andb];
    try destruct (Str.endswith (Str.lower name) ".csv").
Qed.

Lemma collect_csv_paths_run w directory names :
  resolve w directory = Some (Dir names) →
  collect_csv_paths directory w = (Ok (csv_paths_of w directory names), w).
Proof.
  intros E. unfold collect_csv_paths, bind at 1 2, os_listdir, bind at 1, stat.
  rewrite E. unfold ret at 1. by rewrite filter_csv_names_run.
Qed.

(** [read_csv] on a directory. *)
Lemma read_csv_dir_run w path d h enc names :
  let resolved := os_path.expanduser (env w) path in
  resolve w resolved = Some (Dir names) →
  read_csv path d h enc w =
    match csv_paths_of w resolved names with
    | [] => (Raise (EmptyInputError resolved), w)
    | csv_paths =>
        (result_bind (all_chunks w d h enc csv_paths) stacked,
         with_log w ("Loading CSV files from directory " +:+ resolved +:+ " ..."))
    end.
Proof.
  intros resolved E.
  unfold read_csv, os_path_expanduser, os_path_isdir.
  unfold bind at 1 2 3 4 5. unfold get_env, stat, ret at 1 2.
  fold resolved. rewrite E. unfold bind at 1 2.
  rewrite (collect_csv_paths_run _ _ names E).
  destruct (csv_paths_of w resolved names) as [|p ps]; [reflexivity|].
  unfold bind, logging_info, ret. rewrite stack_chunks_run.
  f_equal. f_equal. by apply all_chunks_same_files.
Qed.

Lemma sorted_is_sorted (l : list string) : Sorted String.le (Str.sorted l).
Proof. apply Sorted_merge_sort. apply _. Qed.

Lemma sorted_permutation (l : list string) : Str.sorted l ≡ₚ l.
Proof. apply merge_sort_Permutation. Qed.

(** A sorted list of strings is determined by its elements. *)
Lemma sorted_of_permutation (l l' : list string) :
  l ≡ₚ l' → Str.sorted l = Str.sorted l'.
Proof.
  intros H. apply (Sorted_unique String.le); try apply sorted_is_sorted.
  by rewrite !sorted_permutation.
Qed.

Lemma sorted_nil_inv (l : list string) : Str.sorted l = [] → l = [].
Proof.
  intros H. apply Permutation_nil_r. rewrite <- H. symmetry. apply sorted_permutation.
Qed.

Lemma elem_of_csv_names w directory names name :
  name ∈ csv_names w directory names ↔
  name ∈ names ∧ is_regular w (os_path.join directory name) = true ∧
  is_csv_name name = true.
Proof.
  unfold csv_names. rewrite list_elem_of_In, filter_In, <- list_elem_of_In.
  by rewrite andb_true_iff.
Qed.

(** C4. For a directory, [read_csv] collects exactly the regular files of
    the listing whose name ends in .csv, .CSV or any other case variant
    of the extension, as paths in sorted order; it raises EmptyInputError
    when there is none, in particular on an empty directory, and
    otherwise reads the collected paths. *)
Theorem read_csv_collects_csv_files (w : world) (path : string)
    (d : ascii) (h : bool) (enc : string) (names : list string) :
  let resolved := os_path.expanduser (env w) path in
  resolve w resolved = Some (Dir names) →
  let csv_paths := csv_paths_of w resolved names in
  collect_csv_paths resolved w = (Ok csv_paths, w) ∧
  Sorted String.le csv_paths ∧
  csv_paths ≡ₚ map (os_path.join resolved) (csv_names w resolved names) ∧
  (∀ p, p ∈ csv_paths ↔
        ∃ name, name ∈ names ∧ p = os_path.join resolved name ∧
                is_regular w p = true ∧ has_csv_extension name) ∧
  (csv_paths = [] → read_csv path d h enc w = (Raise (EmptyInputError resolved), w)) ∧
  (names = [] → read_csv path d h enc w = (Raise (EmptyInputError resolved), w)) ∧
  (csv_paths ≠ [] →
     read_csv path d h enc w
     = (result_bind (all_chunks w d h enc csv_paths) stacked,
        with_log w ("Loading CSV files from directory " +:+ resolved +:+ " ..."))).
Proof.
  intros resolved E csv_paths.
  pose proof (read_csv_dir_run w path d h enc names E) as Hrun.
  fold resolved csv_paths in Hrun.
  split; [by apply collect_csv_paths_run|].
  split; [apply sorted_is_sorted|].
  split; [apply sorted_permutation|].
  split; [|split; [|split]].
  - intros p. unfold csv_paths, csv_paths_of.
    rewrite sorted_permutation, list_elem_of_fmap. split.
    + intros (name & -> & (Hin & Hreg & Hcsv%is_csv_name_spec)%elem_of_csv_names).
      eauto 6.
    + intros (name & Hin & -> & Hreg & Hcsv%is_csv_name_spec). exists name.
      split; [done|]. by apply elem_of_csv_names.
  - intros Hnil. by rewrite Hrun, Hnil.
  - intros ->. by rewrite Hrun.
  - intros Hne. rewrite Hrun. by destruct csv_paths.
Qed.

Lemma read_csv_collects_csv_files_witness :
  ("/scans/A.CSV"
   ∈ csv_paths_of mixed_case_world "/scans"
       ["b.Csv"; "notes.txt"; "A.CSV"; "c.csv.bak"; "old.csv"; "d.cSV"]) ∧
  ("/scans/old.csv"
   ∉ csv_paths_of mixed_case_world "/scans"
       ["b.Csv"; "notes.txt"; "A.CSV"; "c.csv.bak"; "old.csv"; "d.cSV"]) ∧
  outcome (read_csv "/scans" ","%char true "utf-8") mixed_case_world
  = Ok (np.Array [3; 3] np.str_
          [ [csv.VStr "1"; csv.VStr "2"; csv.VStr "3"];
            [csv.VStr "4"; csv.VStr "5"; csv.VStr "6"];
            [csv.VStr "7"; csv.VStr "8"; csv.VStr "9"] ],
        np.Array [3; 0] np.str_ [ []; []; [] ]) ∧
  read_csv "/empty" ","%char true "utf-8" Sample.w0
  = (Raise (EmptyInputError "/empty"), Sample.w0).
Proof.
  pose proof (read_csv_collects_csv_files mixed_case_world "/scans" ","%char true "utf-8"
                ["b.Csv"; "notes.txt"; "A.CSV"; "c.csv.bak"; "old.csv"; "d.cSV"] eq_refl)
    as (_ & _ & _ & Hin & _ & _ & Hread).
  split; [|split; [|split]].
  - apply Hin. exists "A.CSV". split; [rewrite !elem_of_cons; auto 10|].
    split; [reflexivity|]. split; [reflexivity|].
    exists "A", ".CSV". split; [reflexivity|].
    unfold csv_extensions. rewrite !elem_of_cons. auto 10.
  - intros (name & _ & Hname & Hreg & _)%Hin. discriminate Hreg.
  - unfold outcome. rewrite Hread; [reflexivity|discriminate].
  - apply (read_csv_collects_csv_files Sample.w0 "/empty" ","%char true "utf-8" []);
      reflexivity.
Defined.

(** ** Arrays *)

Lemma stored_not_str dt (nested : list (list csv.value)) :
  dt ≠ np.str_ → map (map (np.stored dt)) nested = nested.
Proof.
  intros Hdt. rewrite <- (map_id nested) at 2. apply map_ext. intros row.
  rewrite <- (map_id row) at 2. apply map_ext. intros v. by destruct dt.
Qed.

Lemma stored_none dt v : np.stored dt v = csv.VNone ↔ v = csv.VNone.
Proof. by destruct dt, v. Qed.

(** What [asarray] returns when it returns: the cells as the dtype stores
    them, in one of four forms. *)
Lemma asarray_ok nested a :
  np.asarray nested = Ok a →
  np.rows a = map (map (np.stored (np.dtype_of a))) nested ∧
  ((nested = [] ∧ np.shape a = [0] ∧ np.dtype_of a = np.float64) ∨
   (nested ≠ [] ∧ concat nested = [] ∧
    np.shape a = [length nested; 0] ∧ np.dtype_of a = np.float64) ∨
   (∃ n, concat nested ≠ [] ∧ forallb np.is_scalar (concat nested) = true ∧
      np.shape a = [length nested; n] ∧
      np.dtype_of a = (if forallb np.is_str (concat nested) then np.str_ else np.object_)) ∨
   (∃ n L, concat nested ≠ [] ∧ forallb np.is_scalar (concat nested) = false ∧
      forallb (np.has_len L) (concat nested) = true ∧
      np.shape a = [length nested; n; L] ∧
      np.dtype_of a = (if (L =? 0)%nat then np.float64 else np.str_))).
Proof.
  unfold np.asarray. destruct nested as [|first rest].
  { intros [= <-]. split; [done|]. by left. }
  destruct (negb _); [discriminate|].
  destruct (concat (first :: rest)) as [|c0 cells] eqn:Hcat.
  { intros [= <-]. cbn [np.rows np.dtype_of np.shape].
    split; [by rewrite stored_not_str|]. right; left.
    repeat split; try done. destruct first; [done|discriminate]. }
  destruct (forallb np.is_scalar (c0 :: cells)) eqn:Hsc.
  { intros [= <-]. cbn [np.rows np.dtype_of np.shape].
    split; [done|]. right; right; left. by exists (length first). }
  destruct c0 as [| |l0]; try discriminate.
  destruct (forallb (np.has_len (length l0)) _) eqn:Hlen; [|discriminate].
  intros [= <-]. cbn [np.rows np.dtype_of np.shape].
  split; [done|]. right; right; right. by exists (length first), (length l0).
Qed.

Lemma asarray_rows nested a :
  np.asarray nested = Ok a → np.rows a = map (map (np.stored (np.dtype_of a))) nested.
Proof. by intros [? _]%asarray_ok. Qed.

(** A non-empty array made by [asarray] has two or three dimensions and
    holds text: its dtype is never a number type. *)
Lemma asarray_nonempty nested a :
  np.asarray nested = Ok a → nonempty a = true →
  (np.ndim a = 2 ∨ np.ndim a = 3) ∧ np.dtype_of a ≠ np.float64.
Proof.
  intros [_ H]%asarray_ok. unfold nonempty, np.size, np.ndim.
  destruct H as [(_ & -> & _)|[(_ & _ & -> & _)|[(n & _ & _ & -> & ->)|
                   (n & L & _ & _ & _ & -> & ->)]]].
  - discriminate.
  - cbn. rewrite Nat.mul_0_r. discriminate.
  - intros _. split; [by left|]. by destruct (forallb np.is_str _).
  - cbn [fold_right length]. destruct L as [|k]; cbn [Nat.eqb].
    + rewrite Nat.mul_0_l, !Nat.mul_0_r. discriminate.
    + intros _. split; [by right|done].
Qed.

Lemma chunk_of_asarray w d h enc path chunk :
  chunk_of w d h enc path = Ok chunk → ∃ nested, np.asarray nested = Ok chunk.
Proof.
  unfold chunk_of, outcome, read_chunk, open_read, bind, stat, ret, raise, lift.
  destruct (resolve w path) as [[read| |]|]; cbv beta iota zeta delta [fst];
    try discriminate.
  destruct (read enc) as [err|text]; cbv beta iota zeta delta [fst]; [discriminate|].
  destruct h.
  - destruct (csv.DictReader text d) as [rows|e']; [eauto|discriminate].
  - destruct (csv.reader text d) as [rows|e']; [eauto|discriminate].
Qed.

Lemma all_chunks_Forall2 w d h enc paths chunks :
  all_chunks w d h enc paths = Ok chunks ↔
  Forall2 (λ p c, chunk_of w d h enc p = Ok c) paths chunks.
Proof.
  revert chunks. induction paths as [|p paths IH]; intros chunks; cbn [all_chunks].
  - split; [intros [= <-]; constructor|by intros ->%Forall2_nil_inv_l].
  - split.
    + destruct (chunk_of w d h enc p) as [c|] eqn:E; [|discriminate].
      destruct (all_chunks w d h enc paths) as [cs|] eqn:E'; [|discriminate].
      intros [= <-]. constructor; [done|]. by apply IH.
    + intros (c & cs & Hc & Hcs & ->)%Forall2_cons_inv_l.
      rewrite Hc. apply IH in Hcs. by rewrite Hcs.
Qed.

Lemma check_all_ok first arrs :
  np.check_all first arrs = Ok tt →
  Forall (λ a, np.ndim a = np.ndim first ∧ tail (np.shape a) = tail (np.shape first)) arrs.
Proof.
  induction arrs as [|a arrs IH]; cbn [np.check_all]; [constructor|].
  unfold np.check_against.
  destruct (np.ndim a =? np.ndim first)%nat eqn:E1; cbn [negb]; [|discriminate].
  destruct (bool_decide (tail (np.shape a) = tail (np.shape first))) eqn:E2;
    cbn [negb]; [|discriminate].
  intros H. constructor; [|by apply IH].
  split; [by apply Nat.eqb_eq|by apply bool_decide_eq_true in E2].
Qed.

Lemma concatenate_ok arrs data :
  np.concatenate arrs = Ok data →
  ∃ first rest m trailing,
    arrs = first :: rest ∧ np.shape first = m :: trailing ∧
    np.rows data = concat (map np.rows arrs) ∧
    np.shape data = length (np.rows data) :: trailing ∧
    np.dtype_of data = fold_left np.promote (map np.dtype_of rest) (np.dtype_of first) ∧
    Forall (λ a, np.ndim a = np.ndim first ∧ tail (np.shape a) = trailing) arrs.
Proof.
  unfold np.concatenate. destruct arrs as [|first rest]; [discriminate|].
  destruct (np.shape first) as [|m trailing] eqn:Hsh; [discriminate|].
  destruct (np.check_all first rest) as [[]|] eqn:Hchk; [|discriminate].
  intros [= <-]. exists first, rest, m, trailing. repeat split; try done.
  constructor; [by rewrite Hsh|].
  apply check_all_ok in Hchk. rewrite Hsh in Hchk. done.
Qed.

Lemma split_columns_ok data :
  (2 <= np.ndim data)%nat →
  ∃ coordinates attributes,
    split_columns data = Ok (coordinates, attributes) ∧
    np.columns_to 3 data = Ok coordinates ∧
    np.columns_from 3 data = Ok attributes ∧
    np.rows coordinates = map (take 3) (np.rows data) ∧
    np.rows attributes = map (drop 3) (np.rows data) ∧
    np.dtype_of coordinates = np.dtype_of data ∧
    np.dtype_of attributes = np.dtype_of data.
Proof.
  unfold split_columns, np.columns_to, np.columns_from, np.ndim, result_bind.
  destruct (np.shape data) as [|m [|n trailing]]; cbn [length]; try lia.
  intros _. eexists _, _. repeat split.
Qed.

(** ** Sorting paths is sorting file names *)

Lemma string_app_assoc (a b c : string) : (a +:+ b) +:+ c = a +:+ b +:+ c.
Proof.
  induction a as [|x a IH]; [done|].
  change (String x a +:+ b) with (String x (a +:+ b)).
  change (String x (a +:+ b) +:+ c) with (String x ((a +:+ b) +:+ c)).
  change (String x a +:+ b +:+ c) with (String x (a +:+ b +:+ c)).
  by rewrite IH.
Qed.

Lemma join_relative directory name :
  Str.startswith name "/" = false →
  os_path.join directory name = join_prefix directory +:+ name.
Proof.
  intros H. unfold os_path.join, join_prefix. rewrite H.
  destruct (_ || _); [done|]. by rewrite string_app_assoc.
Qed.

Lemma sorted_app_prefix (p : string) (l : list string) :
  Str.sorted (map (String.app p) l) = map (String.app p) (Str.sorted l).
Proof.
  apply (Sorted_unique String.le).
  - apply sorted_is_sorted.
  - apply Sorted_fmap with (R1 := String.le); [|apply sorted_is_sorted].
    intros x y. apply le_app_mono.
  - rewrite sorted_permutation. apply Permutation_map. symmetry.
    apply sorted_permutation.
Qed.

Lemma sorted_join directory (names : list string) :
  Forall (λ name, Str.startswith name "/" = false) names →
  Str.sorted (map (os_path.join directory) names)
  = map (os_path.join directory) (Str.sorted names).
Proof.
  intros H.
  assert (Hmap : ∀ l, Forall (λ name, Str.startswith name "/" = false) l →
            map (os_path.join directory) l = map (String.app (join_prefix directory)) l).
  { intros l Hl. apply map_ext_Forall. eapply Forall_impl; [exact Hl|].
    intros name Hn. by apply join_relative. }
  rewrite Hmap by done. rewrite sorted_app_prefix. symmetry. apply Hmap.
  by rewrite sorted_permutation.
Qed.

Lemma csv_names_sublist w directory names :
  Forall (λ name, Str.startswith name "/" = false) names →
  Forall (λ name, Str.startswith name "/" = false) (csv_names w directory names).
Proof.
  rewrite !List.Forall_forall. intros H name Hin. apply H.
  apply (proj2 (list_elem_of_In _ _)) in Hin.
  apply elem_of_csv_names in Hin as (Hin & _). by apply list_elem_of_In.
Qed.

(** The collected paths are the kept names in sorted order, each joined
    to the directory. *)
Lemma csv_paths_by_name w directory names :
  Forall (λ name, Str.startswith name "/" = false) names →
  csv_paths_of w directory names
  = map (os_path.join directory) (Str.sorted (csv_names w directory names)).
Proof. intros H. apply sorted_join. by apply csv_names_sublist. Qed.

Lemma stacked_ok chunks data :
  Forall (λ c, ∃ nested, np.asarray nested = Ok c) chunks →
  np.concatenate (List.filter nonempty chunks) = Ok data →
  np.rows data = concat (map np.rows (List.filter nonempty chunks)) ∧
  np.dtype_of data ≠ np.float64 ∧
  ∃ coordinates attributes,
    stacked chunks = Ok (coordinates, attributes) ∧
    np.columns_to 3 data = Ok coordinates ∧
    np.columns_from 3 data = Ok attributes ∧
    np.rows coordinates = map (take 3) (np.rows data) ∧
    np.rows attributes = map (drop 3) (np.rows data) ∧
    np.dtype_of coordinates = np.dtype_of data ∧
    np.dtype_of attributes = np.dtype_of data.
Proof.
  intros Hasarray Hcat.
  destruct (concatenate_ok _ _ Hcat)
    as (first & rest & m & trailing & Hkept & Hshape & Hrows & Hsh & Hdt & Hall).
  assert (Hfirst : first ∈ List.filter nonempty chunks) by (rewrite Hkept; set_solver).
  apply list_elem_of_In, filter_In in Hfirst as [Hin Hne].
  apply (proj2 (list_elem_of_In _ _)) in Hin.
  rewrite Forall_forall in Hasarray. destruct (Hasarray _ Hin) as (nested & Hn).
  destruct (asarray_nonempty _ _ Hn Hne) as [Hdim Hfl].
  assert (Hnd : (2 <= np.ndim data)%nat).
  { unfold np.ndim in *. rewrite Hsh. rewrite Hshape in Hdim. cbn [length] in *. lia. }
  assert (Hdtype : np.dtype_of data ≠ np.float64).
  { rewrite Hdt. clear -Hfl. revert Hfl. generalize (np.dtype_of first).
    induction (map np.dtype_of rest) as [|x l IH]; intros d0 Hd; [done|].
    cbn [fold_left]. apply IH. by destruct d0, x. }
  split; [done|]. split; [done|].
  destruct (split_columns_ok data Hnd) as (c & a & Hsplit & ?).
  exists c, a. split; [|done].
  unfold stacked. rewrite Hkept in *. by rewrite Hcat.
Qed.

(** C1. For a directory that holds CSV files, [read_csv] parses each
    collected file into a chunk, the files taken in the sorted order of
    their names, concatenates the non-empty chunks row-wise in that order,
    and returns the first three columns of the concatenation as the
    coordinates and the remaining columns as the attributes. *)
Theorem read_csv_stacks_sorted_files (w : world) (path : string)
    (d : ascii) (h : bool) (enc : string) (names : list string) :
  let resolved := os_path.expanduser (env w) path in
  resolve w resolved = Some (Dir names) →
  Forall (λ name, Str.startswith name "/" = false) names →
  let csv_paths :=
    map (os_path.join resolved) (Str.sorted (csv_names w resolved names)) in
  csv_paths ≠ [] →
  outcome (read_csv path d h enc) w
  = result_bind (all_chunks w d h enc csv_paths) stacked ∧
  ∀ chunks data,
    Forall2 (λ csv_path chunk, chunk_of w d h enc csv_path = Ok chunk)
      csv_paths chunks →
    np.concatenate (List.filter nonempty chunks) = Ok data →
    np.rows data = concat (map np.rows (List.filter nonempty chunks)) ∧
    ∃ coordinates attributes,
      outcome (read_csv path d h enc) w = Ok (coordinates, attributes) ∧
      np.columns_to 3 data = Ok coordinates ∧
      np.columns_from 3 data = Ok attributes ∧
      np.rows coordinates = map (take 3) (np.rows data) ∧
      np.rows attributes = map (drop 3) (np.rows data).
Proof.
  intros resolved E Hnames csv_paths Hne.
  assert (Hpaths : csv_paths_of w resolved names = csv_paths)
    by by apply csv_paths_by_name.
  assert (Hrun : outcome (read_csv path d h enc) w
                 = result_bind (all_chunks w d h enc csv_paths) stacked).
  { unfold outcome. rewrite (read_csv_dir_run w path d h enc names E).
    fold resolved. rewrite Hpaths. by destruct csv_paths. }
  split; [done|].
  intros chunks data Hchunks Hcat.
  assert (Hasarray : Forall (λ c, ∃ nested, np.asarray nested = Ok c) chunks).
  { clear -Hchunks. induction Hchunks; constructor; eauto using chunk_of_asarray. }
  destruct (stacked_ok chunks data Hasarray Hcat)
    as (Hrows & _ & c & a & Hst & Hc & Ha & Hrc & Hra & _).
  split; [done|]. exists c, a. repeat split; try done.
  apply all_chunks_Forall2 in Hchunks. by rewrite Hrun, Hchunks.
Qed.

Lemma read_csv_stacks_sorted_files_witness :
  outcome (read_csv "/data" ","%char true "utf-8") Sample.w0
  = Ok (np.Array [2; 3] np.str_
          [ [csv.VStr "1"; csv.VStr "2"; csv.VStr "3"];
            [csv.VStr "4"; csv.VStr "5"; csv.VStr "6"] ],
        np.Array [2; 0] np.str_ [ []; [] ]).
Proof.
  rewrite (proj1 (read_csv_stacks_sorted_files Sample.w0 "/data" ","%char true "utf-8"
                    ["B.csv"; "A.csv"] eq_refl
                    ltac:(repeat constructor) ltac:(discriminate))).
  reflexivity.
Defined.

(** ** [read_csv] as a whole *)

Lemma read_csv_outcome w path d h enc :
  outcome (read_csv path d h enc) w
  = result_bind (resolved_files w path)
      (λ csv_paths, result_bind (all_chunks w d h enc csv_paths) stacked).
Proof.
  unfold outcome, resolved_files.
  destruct (resolve w (os_path.expanduser (env w) path)) as [[read|names|]|] eqn:E.
  2: { rewrite (read_csv_dir_run w path d h enc names E).
       by destruct (csv_paths_of _ _ _). }
  all: rewrite read_csv_file_run by (intros names; by rewrite E); cbv zeta;
    destruct (is_regular w _); [|reflexivity];
    destruct (is_csv_name _); [|reflexivity];
    rewrite stack_chunks_run; cbn [fst result_bind];
    by rewrite (all_chunks_same_files _ w).
Qed.

(** All that [read_csv] does to the world is to log at most one message. *)
Lemma read_csv_world w path d h enc :
  snd (read_csv path d h enc w) = w ∨
  ∃ msg, snd (read_csv path d h enc w) = with_log w msg.
Proof.
  destruct (resolve w (os_path.expanduser (env w) path)) as [[read|names|]|] eqn:E.
  2: { rewrite (read_csv_dir_run w path d h enc names E).
       destruct (csv_paths_of _ _ _); [by left|right; eauto]. }
  all: rewrite read_csv_file_run by (intros names; by rewrite E); cbv zeta;
    destruct (is_regular w _); [|by left];
    destruct (is_csv_name _); [|by left];
    rewrite stack_chunks_run; right; eauto.
Qed.

Lemma all_chunks_app w d h enc before after :
  all_chunks w d h enc (before ++ after)
  = result_bind (all_chunks w d h enc before) (λ chunks,
    result_bind (all_chunks w d h enc after) (λ chunks', Ok (chunks ++ chunks'))).
Proof.
  induction before as [|p before IH]; cbn [all_chunks app result_bind].
  - by destruct (all_chunks w d h enc after).
  - destruct (chunk_of w d h enc p); [|done]. rewrite IH.
    destruct (all_chunks w d h enc before); [|done]. cbn [result_bind].
    by destruct (all_chunks w d h enc after).
Qed.

Lemma no_rows_empty w d h enc path chunk :
  chunk_of w d h enc path = Ok chunk → np.rows chunk = [] → nonempty chunk = false.
Proof.
  intros (nested & Hn)%chunk_of_asarray Hrows.
  pose proof (asarray_rows _ _ Hn) as Hr. rewrite Hrows in Hr.
  symmetry in Hr. apply map_eq_nil in Hr. subst nested.
  by injection Hn as <-.
Qed.

Lemma stacked_app chunks chunks' :
  List.filter nonempty chunks = List.filter nonempty chunks' →
  stacked chunks = stacked chunks'.
Proof. unfold stacked. by intros ->. Qed.

(** C6. With [has_header] the first record of a file names the fields and
    is not a data row; without it every record is a data row.  A file that
    yields zero data rows adds nothing to what is stacked, and when no
    resolved file yields any row [read_csv] returns, without raising, an
    empty coordinate array of shape (0, 3) and an empty attribute array
    of shape (0, 0). *)
Theorem read_csv_skips_header_and_empty_files (w : world) (path : string)
    (d : ascii) (enc : string) :
  (∀ csv_path read text header records,
     resolve w csv_path = Some (File read) → read enc = inr text →
     csv.reader text d = Ok (header :: records) →
     chunk_of w d true enc csv_path
     = np.asarray (map csv.dict_values
                     (map (csv.make_row header)
                        (List.filter (λ row, negb (csv.is_blank row)) records))) ∧
     chunk_of w d false enc csv_path
     = np.asarray (map (map csv.VStr) (header :: records))) ∧
  (∀ h before csv_path after,
     resolved_files w path = Ok (before ++ csv_path :: after) →
     yields_no_rows w d h enc csv_path →
     outcome (read_csv path d h enc) w
     = result_bind (all_chunks w d h enc (before ++ after)) stacked) ∧
  (∀ h csv_paths,
     resolved_files w path = Ok csv_paths →
     Forall (yields_no_rows w d h enc) csv_paths →
     outcome (read_csv path d h enc) w = Ok (np.empty [0; 3], np.empty [0; 0]) ∧
     np.shape (np.empty [0; 3]) = [0; 3] ∧ np.shape (np.empty [0; 0]) = [0; 0]).
Proof.
  split; [|split].
  - intros csv_path read text header records Hfile Hread Hrec.
    unfold chunk_of, outcome, read_chunk, open_read, bind, stat, ret, lift.
    rewrite Hfile. cbv beta iota zeta. rewrite Hread. cbv beta iota zeta.
    unfold csv.DictReader. rewrite Hrec. cbv beta iota zeta delta [fst].
    split; reflexivity.
  - intros h before csv_path after Hfiles (chunk & Hchunk & Hrows).
    rewrite read_csv_outcome, Hfiles. cbn [result_bind].
    rewrite !all_chunks_app. cbn [all_chunks]. rewrite Hchunk.
    destruct (all_chunks w d h enc before) as [cs|]; [|done].
    destruct (all_chunks w d h enc after) as [cs'|]; [|done].
    cbn [result_bind]. apply stacked_app.
    rewrite !List.filter_app. cbn [List.filter].
    by rewrite (no_rows_empty _ _ _ _ _ _ Hchunk Hrows).
  - intros h csv_paths Hfiles Hall. split; [|done].
    rewrite read_csv_outcome, Hfiles. cbn [result_bind].
    assert (∃ chunks, all_chunks w d h enc csv_paths = Ok chunks ∧
                      List.filter nonempty chunks = []) as (chunks & -> & Hnil).
    { clear Hfiles. induction Hall as [|p ps (chunk & Hchunk & Hrows) _ IH].
      - by exists [].
      - destruct IH as (chunks & Hcs & Hnil). exists (chunk :: chunks).
        cbn [all_chunks List.filter]. rewrite Hchunk, Hcs.
        by rewrite (no_rows_empty _ _ _ _ _ _ Hchunk Hrows). }
    cbn [result_bind]. unfold stacked. by rewrite Hnil.
Qed.

Lemma read_csv_skips_header_and_empty_files_witness :
  outcome (read_csv "/headers" ","%char true "utf-8") Sample.w0
  = Ok (np.empty [0; 3], np.empty [0; 0]).
Proof.
  apply (read_csv_skips_header_and_empty_files Sample.w0 "/headers" ","%char "utf-8")
    with (csv_paths := ["/headers/only_header.csv"]).
  - reflexivity.
  - repeat constructor. eexists. split; reflexivity.
Defined.

(** ** Column counts *)

Lemma concatenate_same_columns arrs data a b :
  np.concatenate arrs = Ok data → a ∈ arrs → b ∈ arrs → ncols a = ncols b.
Proof.
  intros (first & rest & m & trailing & _ & Hshape & _ & _ & _ & Hall)%concatenate_ok Ha Hb.
  rewrite Forall_forall in Hall.
  assert (Hcol : ∀ c, c ∈ arrs → ncols c = hd 0 trailing).
  { intros c [Hdim Htail]%Hall. unfold ncols, np.ndim in *. rewrite Hshape in Hdim.
    destruct (np.shape c) as [|x sh]; [discriminate|]. cbn in Htail. subst sh.
    by destruct trailing. }
  by rewrite (Hcol a), (Hcol b).
Qed.

Lemma elem_of_nonempty (c : np.ndarray) chunks :
  c ∈ chunks → nonempty c = true → c ∈ List.filter nonempty chunks.
Proof. intros Hin Hne. apply list_elem_of_In, filter_In. by rewrite <- list_elem_of_In. Qed.

(** C9. When every file parses and two non-empty chunks differ in their
    number of columns, [read_csv] fails in [np.concatenate], with a
    ValueError of numpy that is none of NotFoundError, EmptyInputError and
    InvalidFormatError; a call that succeeds has the same number of
    columns in all non-empty chunks. *)
Theorem read_csv_needs_equal_column_counts (w : world) (path : string)
    (d : ascii) (h : bool) (enc : string)
    (csv_paths : list string) (chunks : list np.ndarray) :
  resolved_files w path = Ok csv_paths →
  all_chunks w d h enc csv_paths = Ok chunks →
  (∀ c1 c2, c1 ∈ chunks → c2 ∈ chunks →
     nonempty c1 = true → nonempty c2 = true → ncols c1 ≠ ncols c2 →
     ∃ e, np.concatenate (List.filter nonempty chunks) = Raise e ∧
          outcome (read_csv path d h enc) w = Raise e ∧
          ¬ specified_error e) ∧
  (∀ r, outcome (read_csv path d h enc) w = Ok r →
     ∀ c1 c2, c1 ∈ chunks → c2 ∈ chunks →
       nonempty c1 = true → nonempty c2 = true → ncols c1 = ncols c2).
Proof.
  intros Hfiles Hchunks.
  assert (Hrun : outcome (read_csv path d h enc) w = stacked chunks).
  { by rewrite read_csv_outcome, Hfiles; cbn [result_bind]; rewrite Hchunks. }
  split.
  - intros c1 c2 H1 H2 Hn1 Hn2 Hcols.
    pose proof (elem_of_nonempty _ _ H1 Hn1) as Hk1.
    pose proof (elem_of_nonempty _ _ H2 Hn2) as Hk2.
    destruct (np.concatenate (List.filter nonempty chunks)) as [data|e] eqn:Hcat.
    { destruct Hcols. by eapply concatenate_same_columns. }
    exists e. split; [done|]. split.
    + rewrite Hrun. unfold stacked.
      destruct (List.filter nonempty chunks) as [|k kept]; [by apply elem_of_nil in Hk1|].
      by rewrite Hcat.
    + apply raised_below_not_specified. by eapply concatenate_raises.
  - intros r Hok c1 c2 H1 H2 Hn1 Hn2.
    pose proof (elem_of_nonempty _ _ H1 Hn1) as Hk1.
    pose proof (elem_of_nonempty _ _ H2 Hn2) as Hk2.
    rewrite Hrun in Hok. unfold stacked in Hok.
    destruct (List.filter nonempty chunks) as [|k kept] eqn:Hkept.
    { by apply elem_of_nil in Hk1. }
    destruct (np.concatenate (k :: kept)) as [data|e] eqn:Hcat; [|discriminate].
    by eapply concatenate_same_columns.
Qed.

Lemma read_csv_needs_equal_column_counts_witness :
  outcome (read_csv "/mixed" ","%char true "utf-8") Sample.w0
  = Raise (ValueError
      "all the input array dimensions except for the concatenation axis must match exactly").
Proof.
  destruct (proj1 (read_csv_needs_equal_column_counts
                     Sample.w0 "/mixed" ","%char true "utf-8"
                     ["/mixed/narrow.csv"; "/mixed/wide.csv"]
                     [ np.Array [1; 2] np.str_ [[csv.VStr "5"; csv.VStr "6"]];
                       np.Array [1; 4] np.str_
                         [[csv.VStr "1"; csv.VStr "2"; csv.VStr "3"; csv.VStr "4"]] ]
                     eq_refl eq_refl)
              (np.Array [1; 2] np.str_ [[csv.VStr "5"; csv.VStr "6"]])
              (np.Array [1; 4] np.str_
                 [[csv.VStr "1"; csv.VStr "2"; csv.VStr "3"; csv.VStr "4"]])
              ltac:(repeat constructor) ltac:(repeat constructor) eq_refl eq_refl
              ltac:(discriminate))
    as (e & Hcat & Hout & _).
  rewrite Hout. injection Hcat as <-. reflexivity.
Defined.

(** ** Rows under a header *)

Lemma dict_set_fresh k v (d : csv.dict) :
  k ∉ map fst d → csv.dict_set k v d = d ++ [(k, v)].
Proof.
  induction d as [|[k' v'] d IH]; cbn [csv.dict_set map fst app]; [done|].
  intros Hk. apply not_elem_of_cons in Hk as [Hne Hk].
  destruct (decide (k = k')); [done|]. by rewrite IH.
Qed.

Lemma dict_set_present k v (d : csv.dict) :
  k ∈ map fst d → map fst (csv.dict_set k v d) = map fst d.
Proof.
  induction d as [|[k' v'] d IH]; cbn [csv.dict_set map fst].
  - by intros ?%elem_of_nil.
  - intros Hk. destruct (decide (k = k')) as [->|Hne]; [done|].
    apply elem_of_cons in Hk as [?|Hk]; [done|]. cbn [map fst]. by rewrite IH.
Qed.

Lemma dict_set_values (P : csv.value → Prop) k v (d : csv.dict) :
  Forall P (map snd d) → P v → Forall P (map snd (csv.dict_set k v d)).
Proof.
  induction d as [|[k' v'] d IH]; cbn [csv.dict_set map snd]; intros Hd Hv.
  - by constructor.
  - apply Forall_cons in Hd as [Hv' Hd].
    destruct (decide (k = k')); cbn [map snd]; constructor; auto.
Qed.

Lemma dict_set_keys (ks : list string) k v (d : csv.dict) :
  map fst d = map Some ks →
  map fst (csv.dict_set (Some k) v d) = map Some (add_key ks k).
Proof.
  intros Hd. unfold add_key. case_bool_decide as Hin.
  - rewrite dict_set_present; [done|]. rewrite Hd. by apply list_elem_of_fmap_2.
  - rewrite dict_set_fresh.
    + by rewrite !map_app, Hd.
    + rewrite Hd. intros (k' & [= <-] & Hk')%list_elem_of_fmap. done.
Qed.

Lemma dict_zip_keys keys : ∀ row (ks : list string) (d : csv.dict),
  map fst d = map Some ks → Forall scalar (map snd d) →
  map fst (csv.dict_zip keys row d)
  = map Some (fold_left add_key (take (length row) keys) ks) ∧
  Forall scalar (map snd (csv.dict_zip keys row d)).
Proof.
  induction keys as [|k keys IH]; intros row ks d Hd Hs.
  - rewrite take_nil. by destruct row.
  - destruct row as [|x row]; [done|]. cbn [csv.dict_zip length take fold_left].
    apply IH.
    + by apply dict_set_keys.
    + by apply dict_set_values.
Qed.

Lemma fill_keys rest : ∀ (ks : list string) (d : csv.dict),
  map fst d = map Some ks → Forall scalar (map snd d) →
  map fst (fold_left (λ d key, csv.dict_set (Some key) csv.VNone d) rest d)
  = map Some (fold_left add_key rest ks) ∧
  Forall scalar (map snd (fold_left (λ d key, csv.dict_set (Some key) csv.VNone d) rest d)).
Proof.
  induction rest as [|k rest IH]; intros ks d Hd Hs; [done|].
  cbn [fold_left]. apply IH.
  - by apply dict_set_keys.
  - by apply dict_set_values.
Qed.

(** A row that is not longer than the header has one value for each
    distinct field name, each a field or [None]. *)
Lemma make_row_columns fieldnames row :
  (length row <= length fieldnames)%nat →
  length (csv.dict_values (csv.make_row fieldnames row)) = length (distinct fieldnames) ∧
  Forall scalar (csv.dict_values (csv.make_row fieldnames row)).
Proof.
  intros Hlen. unfold csv.make_row, csv.dict_values, distinct.
  destruct (dict_zip_keys fieldnames row [] []) as [Hk Hs]; [done|constructor|].
  assert (Hlt : (length fieldnames <? length row)%nat = false) by by apply Nat.ltb_ge.
  rewrite Hlt. destruct (length row <? length fieldnames)%nat eqn:Hlt'.
  - destruct (fill_keys (drop (length row) fieldnames) _ _ Hk Hs) as [Hk' Hs'].
    split; [|done].
    rewrite (length_map snd), <- (length_map fst), Hk', length_map.
    by rewrite <- fold_left_app, take_drop.
  - apply Nat.ltb_ge in Hlt'. split; [|done].
    rewrite (length_map snd), <- (length_map fst), Hk, length_map.
    by rewrite take_ge by lia.
Qed.

Lemma asarray_of_scalars (nested : list (list csv.value)) (k : nat) :
  nested ≠ [] → k ≠ 0 →
  Forall (λ row, length row = k ∧ Forall scalar row) nested →
  let dt := if forallb np.is_str (concat nested) then np.str_ else np.object_ in
  np.asarray nested
  = Ok (np.Array [length nested; k] dt (map (map (np.stored dt)) nested)).
Proof.
  intros Hne Hk Hall. cbv zeta. unfold np.asarray.
  destruct nested as [|first rest]; [done|].
  pose proof Hall as Hall'. apply Forall_cons in Hall' as [[Hfirst Hsc] _].
  rewrite Hfirst.
  assert (Hlens : forallb (λ r, (length r =? k)%nat) (first :: rest) = true).
  { apply forallb_forall. intros r Hr%list_elem_of_In.
    rewrite Forall_forall in Hall. apply Nat.eqb_eq. by apply Hall. }
  rewrite Hlens. cbn [negb].
  assert (Hcells : forallb np.is_scalar (concat (first :: rest)) = true).
  { apply forallb_forall. intros c (row & Hrow & Hc)%in_concat.
    apply (proj2 (list_elem_of_In _ _)) in Hrow, Hc.
    rewrite Forall_forall in Hall. destruct (Hall _ Hrow) as [_ Hs].
    rewrite Forall_forall in Hs. by apply Hs. }
  destruct (concat (first :: rest)) as [|c0 cells] eqn:Hcat.
  { destruct first; [done|discriminate]. }
  by rewrite Hcells.
Qed.

Lemma chunk_of_file w d enc csv_path read text :
  resolve w csv_path = Some (File read) → read enc = inr text →
  chunk_of w d true enc csv_path
  = result_bind (csv.DictReader text d) (λ rows, np.asarray (map csv.dict_values rows)) ∧
  chunk_of w d false enc csv_path
  = result_bind (csv.reader text d) (λ rows, np.asarray (map (map csv.VStr) rows)).
Proof.
  intros Hfile Hread.
  unfold chunk_of, outcome, read_chunk, open_read, bind, stat, ret, lift.
  rewrite Hfile. cbv beta iota zeta. rewrite Hread. cbv beta iota zeta.
  split.
  - by destruct (csv.DictReader text d).
  - by destruct (csv.reader text d).
Qed.

Lemma add_key_grows keys : ∀ ks, (length ks <= length (fold_left add_key keys ks))%nat.
Proof.
  induction keys as [|k keys IH]; intros ks; cbn [fold_left]; [done|].
  etrans; [|apply IH]. unfold add_key. case_bool_decide; [done|].
  rewrite length_app. lia.
Qed.

Lemma distinct_nonempty (fieldnames : list string) :
  fieldnames ≠ [] → distinct fieldnames ≠ [].
Proof.
  destruct fieldnames as [|k keys]; [done|]. intros _ H.
  pose proof (add_key_grows keys (add_key [] k)) as Hlen.
  unfold distinct in H. cbn [fold_left] in H. rewrite H in Hlen.
  unfold add_key in Hlen. rewrite bool_decide_eq_false_2 in Hlen by apply not_elem_of_nil.
  cbn in Hlen. lia.
Qed.

Lemma dict_set_value k v (d : csv.dict) : v ∈ map snd (csv.dict_set k v d).
Proof.
  induction d as [|[k' v'] d IH]; cbn [csv.dict_set map snd]; [by left|].
  destruct (decide (k = k')); cbn [map snd]; [by left|by right].
Qed.

Lemma dict_zip_values (P : csv.value → Prop) keys : ∀ row (d : csv.dict),
  (∀ x, P (csv.VStr x)) → Forall P (map snd d) →
  Forall P (map snd (csv.dict_zip keys row d)).
Proof.
  induction keys as [|k keys IH]; intros row d HP Hd; [by destruct row|].
  destruct row as [|x row]; [done|]. cbn [csv.dict_zip].
  apply IH; [done|]. by apply dict_set_values.
Qed.

(** A row shorter than the header has [None] among its values; a row as
    long as the header has fields only. *)
Lemma make_row_short fieldnames row :
  (length row < length fieldnames)%nat →
  csv.VNone ∈ csv.dict_values (csv.make_row fieldnames row).
Proof.
  intros Hlen. unfold csv.make_row, csv.dict_values.
  assert (Hlt : (length fieldnames <? length row)%nat = false) by (apply Nat.ltb_ge; lia).
  apply Nat.ltb_lt in Hlen as Hlt'. rewrite Hlt, Hlt'.
  assert (Hrest : drop (length row) fieldnames ≠ []).
  { intros H%(f_equal length). rewrite length_drop in H. cbn in H. lia. }
  destruct (drop (length row) fieldnames) as [|k rest] using rev_ind; [done|].
  rewrite fold_left_app. cbn [fold_left]. apply dict_set_value.
Qed.

Lemma make_row_fields fieldnames row :
  length row = length fieldnames →
  Forall (λ v, np.is_str v = true) (csv.dict_values (csv.make_row fieldnames row)).
Proof.
  intros Hlen. unfold csv.make_row, csv.dict_values.
  rewrite Hlen, Nat.ltb_irrefl. by apply dict_zip_values; [|constructor].
Qed.

(** The cells of the rows under a header are all fields exactly when no
    row is shorter than the header. *)
Lemma header_rows_all_str header (rows : list (list string)) :
  Forall (λ row, (length row <= length header)%nat) rows →
  forallb np.is_str (concat (map (λ row, csv.dict_values (csv.make_row header row)) rows))
  = true ↔ Forall (λ row, length row = length header) rows.
Proof.
  intros Hle. rewrite forallb_forall. split.
  - intros Hstr. apply Forall_forall. intros row Hrow.
    rewrite Forall_forall in Hle. specialize (Hle _ Hrow).
    destruct (decide (length row = length header)) as [|Hne]; [done|].
    assert (Hnone : In csv.VNone
              (concat (map (λ row, csv.dict_values (csv.make_row header row)) rows))).
    { apply in_concat. exists (csv.dict_values (csv.make_row header row)). split.
      - apply in_map_iff. exists row. split; [done|]. by apply list_elem_of_In.
      - apply list_elem_of_In, make_row_short. lia. }
    by apply Hstr in Hnone.
  - intros Hall c (values & Hvalues & Hc)%in_concat.
    apply in_map_iff in Hvalues as (row & <- & Hrow).
    rewrite List.Forall_forall in Hall. specialize (Hall _ Hrow).
    pose proof (make_row_fields header row Hall) as Hf.
    rewrite List.Forall_forall in Hf. by apply Hf.
Qed.

Lemma dict_zip_fresh keys : ∀ row (d : csv.dict),
  NoDup keys → length row = length keys →
  (∀ k, k ∈ keys → Some k ∉ map fst d) →
  csv.dict_zip keys row d = d ++ zip (map Some keys) (map csv.VStr row).
Proof.
  induction keys as [|k keys IH]; intros row d Hnd Hlen Hfresh.
  - destruct row; [|done]. by rewrite app_nil_r.
  - destruct row as [|x row]; [done|]. cbn [csv.dict_zip map zip zip_with].
    apply NoDup_cons in Hnd as [Hk Hnd].
    rewrite dict_set_fresh by (apply Hfresh; by left).
    rewrite IH; [by rewrite <- app_assoc|done|by injection Hlen|].
    intros k' Hk'. rewrite map_app. cbn [map fst].
    intros [Hin|Hin]%elem_of_app.
    + by apply (Hfresh k'); [right|].
    + apply list_elem_of_singleton in Hin. by injection Hin as ->.
Qed.

(** Under a header of distinct names a full row is its fields, in order. *)
Lemma make_row_full fieldnames row :
  NoDup fieldnames → length row = length fieldnames →
  csv.dict_values (csv.make_row fieldnames row) = map csv.VStr row.
Proof.
  intros Hnd Hlen. unfold csv.make_row, csv.dict_values.
  rewrite Hlen, Nat.ltb_irrefl.
  rewrite dict_zip_fresh by (try done; intros; apply not_elem_of_nil).
  cbn [app]. rewrite snd_zip; [done|]. rewrite !length_map. lia.
Qed.

Lemma asarray_of_fields (records : list (list string)) (n : nat) :
  records ≠ [] → n ≠ 0 → Forall (λ row, length row = n) records →
  np.asarray (map (map csv.VStr) records)
  = Ok (np.Array [length records; n] np.str_
          (map (map (λ field, csv.VStr (Str.rstrip np.NUL field))) records)).
Proof.
  intros Hne Hn Hall.
  pose proof (asarray_of_scalars (map (map csv.VStr) records) n) as Has.
  cbv zeta in Has.
  assert (Hstr : forallb np.is_str (concat (map (map csv.VStr) records)) = true).
  { apply forallb_forall. intros c (row & Hrow & Hc)%in_concat.
    apply in_map_iff in Hrow as (row' & <- & _).
    by apply in_map_iff in Hc as (field & <- & _). }
  rewrite Hstr in Has. rewrite Has.
  - rewrite length_map, map_map. do 2 f_equal. apply map_ext. intros row.
    by rewrite map_map.
  - by destruct records.
  - done.
  - apply Forall_fmap. eapply Forall_impl; [exact Hall|]. intros row Hrow. cbn.
    split; [by rewrite length_map|]. apply Forall_fmap, Forall_forall. by intros.
Qed.

(** A row longer than a non-blank header: its values are one scalar for
    each distinct field name, then the list of the surplus fields. *)
Lemma make_row_long fieldnames row :
  fieldnames ≠ [] → (length fieldnames < length row)%nat →
  ∃ c0 values surplus,
    csv.dict_values (csv.make_row fieldnames row)
    = c0 :: values ++ [csv.VList surplus] ∧ scalar c0.
Proof.
  intros Hne Hlen. unfold csv.make_row, csv.dict_values.
  destruct (dict_zip_keys fieldnames row [] []) as [Hk Hs]; [done|constructor|].
  rewrite take_ge in Hk by lia. fold (distinct fieldnames) in Hk.
  apply Nat.ltb_lt in Hlen. rewrite Hlen.
  rewrite dict_set_fresh.
  2: { rewrite Hk. by intros (k & ? & _)%list_elem_of_fmap. }
  rewrite map_app. cbn [map snd].
  pose proof (distinct_nonempty fieldnames Hne) as Hd.
  destruct (csv.dict_zip fieldnames row []) as [|[k0 v0] rest] eqn:E.
  { cbn in Hk. by destruct (distinct fieldnames). }
  cbn [map snd app] in *. apply Forall_cons in Hs as [Hv0 _]. eauto.
Qed.

Lemma make_row_head fieldnames row :
  fieldnames ≠ [] →
  ∃ c0 values, csv.dict_values (csv.make_row fieldnames row) = c0 :: values ∧ scalar c0.
Proof.
  intros Hne. destruct (decide (length fieldnames < length row)%nat) as [Hlt|Hge].
  - destruct (make_row_long fieldnames row Hne Hlt) as (c0 & vs & sp & -> & Hc). eauto.
  - destruct (make_row_columns fieldnames row) as [Hlen Hs]; [lia|].
    pose proof (distinct_nonempty fieldnames Hne) as Hd.
    destruct (csv.dict_values (csv.make_row fieldnames row)) as [|c0 vs].
    { by destruct (distinct fieldnames). }
    apply Forall_cons in Hs as [Hc _]. eauto.
Qed.

(** An array cannot be made of rows that begin with a scalar and hold a
    list somewhere. *)
Lemma asarray_refuses_lists (first : list csv.value) rest c0 values l :
  first = c0 :: values → scalar c0 →
  (∃ row, row ∈ first :: rest ∧ csv.VList l ∈ row) →
  ∃ after, np.asarray (first :: rest) = Raise (np.inhomogeneous after).
Proof.
  intros -> Hc0 (row & Hrow & Hl). unfold np.asarray.
  destruct (negb (forallb _ _)); [eauto|].
  cbn [concat app].
  assert (Hin : csv.VList l ∈ c0 :: values ++ concat rest).
  { apply elem_of_cons in Hrow as [->|Hrow].
    - apply elem_of_cons in Hl as [<-|Hl]; [by left|]. right. by apply elem_of_app; left.
    - right. apply elem_of_app; right. apply list_elem_of_In, in_concat.
      exists row. by rewrite <- !list_elem_of_In. }
  assert (Hsc : forallb np.is_scalar (c0 :: values ++ concat rest) = false).
  { destruct (forallb np.is_scalar (c0 :: values ++ concat rest)) eqn:E; [|done].
    rewrite forallb_forall in E. apply list_elem_of_In, E in Hin. done. }
  rewrite Hsc. unfold scalar in Hc0. destruct c0; [eauto|eauto|discriminate].
Qed.

(** ** What the arrays hold *)

Lemma read_csv_ok_inv w path d h enc r :
  outcome (read_csv path d h enc) w = Ok r →
  ∃ csv_paths chunks,
    resolved_files w path = Ok csv_paths ∧
    Forall2 (λ csv_path chunk, chunk_of w d h enc csv_path = Ok chunk) csv_paths chunks ∧
    stacked chunks = Ok r.
Proof.
  rewrite read_csv_outcome.
  destruct (resolved_files w path) as [csv_paths|]; [|discriminate].
  cbn [result_bind].
  destruct (all_chunks w d h enc csv_paths) as [chunks|] eqn:E; [|discriminate].
  cbn [result_bind]. intros H. exists csv_paths, chunks.
  by rewrite <- all_chunks_Forall2.
Qed.

Lemma cells_stored dt (nested : list (list csv.value)) :
  concat (map (map (np.stored dt)) nested) = map (np.stored dt) (concat nested).
Proof. by rewrite concat_map. Qed.

Lemma none_stored dt (nested : list (list csv.value)) :
  csv.VNone ∈ concat (map (map (np.stored dt)) nested) ↔ csv.VNone ∈ concat nested.
Proof.
  rewrite cells_stored, list_elem_of_fmap. split.
  - intros (v & Hv & Hin). symmetry in Hv. apply stored_none in Hv. by subst v.
  - intros Hin. exists csv.VNone. split; [by destruct dt|done].
Qed.

Lemma scalar_cells_str (cells : list csv.value) :
  forallb np.is_scalar cells = true →
  forallb np.is_str cells = false ↔ csv.VNone ∈ cells.
Proof.
  intros Hsc. split.
  - intros Hstr. induction cells as [|c cells IH]; [discriminate|].
    cbn [forallb] in Hsc, Hstr. apply andb_true_iff in Hsc as [Hc Hsc].
    destruct c as [s| |l]; [|by left|discriminate]. right. by apply IH.
  - intros Hin. destruct (forallb np.is_str cells) eqn:E; [|done].
    rewrite forallb_forall in E. by apply list_elem_of_In, E in Hin.
Qed.

(** A non-empty array made by [asarray] holds text.  It has two
    dimensions when every cell is a field or [None], and then its dtype
    is object exactly when some cell is [None]; it has three dimensions
    and dtype str when the cells are lists. *)
Lemma asarray_text nested a :
  np.asarray nested = Ok a → nonempty a = true →
  (np.dtype_of a = np.str_ ∨ np.dtype_of a = np.object_) ∧
  (np.ndim a = 2 ∧ forallb np.is_scalar (concat nested) = true ∨
   np.ndim a = 3 ∧ forallb np.is_scalar (concat nested) = false ∧
     (∃ L, forallb (np.has_len L) (concat nested) = true)) ∧
  (np.dtype_of a = np.object_ ↔ csv.VNone ∈ concat (np.rows a)).
Proof.
  intros [Hrows H]%asarray_ok. rewrite Hrows, none_stored.
  unfold nonempty, np.size, np.ndim.
  destruct H as [(_ & -> & _)|[(_ & _ & -> & _)|[(n & _ & Hsc & -> & ->)|
                   (n & L & _ & Hsc & Hlen & -> & ->)]]].
  - discriminate.
  - cbn. rewrite Nat.mul_0_r. discriminate.
  - intros _. pose proof (scalar_cells_str _ Hsc) as Hnone.
    destruct (forallb np.is_str (concat nested)) eqn:E.
    + split; [by left|]. split; [by left|]. split; [done|].
      intros Hin%Hnone. discriminate.
    + split; [by right|]. split; [by left|]. split; [|done].
      intros _. by apply Hnone.
  - cbn [fold_right length]. destruct L as [|k]; cbn [Nat.eqb].
    { rewrite Nat.mul_0_l, !Nat.mul_0_r. discriminate. }
    intros _. split; [by left|]. split; [right; eauto|]. split; [done|].
    intros Hin. rewrite forallb_forall in Hlen. by apply list_elem_of_In, Hlen in Hin.
Qed.

Lemma fields_are_scalar_str (records : list (list string)) :
  forallb np.is_scalar (concat (map (map csv.VStr) records)) = true ∧
  csv.VNone ∉ concat (map (map csv.VStr) records).
Proof.
  split.
  - apply forallb_forall. intros c (row & Hrow & Hc)%in_concat.
    apply in_map_iff in Hrow as (row' & <- & _).
    by apply in_map_iff in Hc as (field & <- & _).
  - intros (row & Hrow & Hc)%list_elem_of_In%in_concat.
    apply in_map_iff in Hrow as (row' & <- & _).
    by apply in_map_iff in Hc as (field & ? & _).
Qed.

(** Under a blank header every row is one list, of all its fields. *)
Lemma make_row_blank_header row :
  row ≠ [] → csv.dict_values (csv.make_row [] row) = [csv.VList row].
Proof. by destruct row. Qed.

(** The shape and dtype of the chunk of a file, from its records. *)
Lemma chunk_of_file_text w d h enc csv_path read text header records chunk :
  resolve w csv_path = Some (File read) → read enc = inr text →
  csv.reader text d = Ok (header :: records) →
  chunk_of w d h enc csv_path = Ok chunk → nonempty chunk = true →
  (np.ndim chunk = 3 ↔ h = true ∧ header = []) ∧
  (np.dtype_of chunk = np.object_ ↔
     h = true ∧ ∃ row, row ∈ nonblank records ∧ (length row < length header)%nat).
Proof.
  intros Hfile Hread Hrec Hchunk Hne.
  destruct (chunk_of_file w d enc csv_path read text Hfile Hread) as [Hh Hnh].
  destruct h.
  - rewrite Hh in Hchunk. unfold csv.DictReader in Hchunk. rewrite Hrec in Hchunk.
    cbn [result_bind] in Hchunk. fold (nonblank records) in Hchunk.
    rewrite map_map in Hchunk.
    set (nested := map (λ row, csv.dict_values (csv.make_row header row))
                     (nonblank records)) in *.
    destruct (asarray_text nested chunk Hchunk Hne) as (Hdt & Hdim & Hobj).
    pose proof (asarray_rows _ _ Hchunk) as Hrows.
    rewrite Hrows, none_stored in Hobj.
    assert (Hnested : nonblank records ≠ []).
    { intros E. unfold nested in Hchunk. rewrite E in Hchunk.
      injection Hchunk as <-. discriminate. }
    destruct header as [|name header].
    + (* a blank header: the cells are lists *)
      assert (Hlists : forallb np.is_scalar (concat nested) = false).
      { unfold nested. destruct (nonblank records) as [|row rows] eqn:E; [done|].
        assert (Hrow : row ≠ []).
        { assert (Hin : In row (nonblank records)) by (rewrite E; by left).
          apply filter_In in Hin as [_ Hb]. by destruct row. }
        cbn [map concat]. by rewrite make_row_blank_header. }
      destruct Hdim as [[_ Hsc]|(Hdim & _ & L & Hlen)]; [congruence|].
      split; [done|]. split.
      * intros Hnone%Hobj. rewrite forallb_forall in Hlen.
        by apply list_elem_of_In, Hlen in Hnone.
      * intros (_ & row & _ & Hlt). cbn in Hlt. lia.
    + (* a header with names: the cells are fields or None *)
      assert (Hh' : name :: header ≠ []) by done.
      assert (Hsc : forallb np.is_scalar (concat nested) = true).
      { destruct Hdim as [[_ Hsc]|(_ & _ & L & Hlen)]; [done|].
        unfold nested in Hlen. destruct (nonblank records) as [|row rows]; [done|].
        destruct (make_row_head (name :: header) row Hh') as (c0 & values & Hrow & Hc0).
        cbn [map concat] in Hlen. rewrite Hrow in Hlen. cbn [app forallb] in Hlen.
        apply andb_true_iff in Hlen as [Hc _]. unfold scalar in Hc0. by destruct c0. }
      destruct Hdim as [[Hdim _]|(_ & Hsc' & _)]; [|congruence].
      split; [split; [intros H; rewrite H in Hdim; discriminate|by intros [_ ?]]|].
      assert (Hle : Forall (λ row, (length row <= length (name :: header))%nat)
                      (nonblank records)).
      { apply Forall_forall. intros row Hrow.
        destruct (decide (length (name :: header) < length row)%nat) as [Hlt|]; [|lia].
        destruct (make_row_long (name :: header) row Hh' Hlt)
          as (c0 & values & surplus & Hvals & _).
        rewrite forallb_forall in Hsc.
        assert (Hin : In (csv.VList surplus) (concat nested)).
        { apply in_concat. exists (csv.dict_values (csv.make_row (name :: header) row)).
          split.
          - unfold nested. apply in_map_iff. exists row. split; [done|].
            by apply list_elem_of_In.
          - rewrite Hvals. right. apply in_or_app. right. by left. }
        by apply Hsc in Hin. }
      pose proof (header_rows_all_str (name :: header) (nonblank records) Hle) as Hstr.
      fold nested in Hstr. rewrite Hobj, <- (scalar_cells_str _ Hsc). split.
      * intros Hnot. split; [done|].
        destruct (decide (Forall (λ row, length row = length (name :: header))
                            (nonblank records))) as [Hall|Hnall].
        { apply Hstr in Hall. congruence. }
        apply not_Forall_Exists in Hnall; [|apply _].
        apply Exists_exists in Hnall as (row & Hrow & Hneq). exists row. split; [done|].
        rewrite Forall_forall in Hle. specialize (Hle _ Hrow). cbn in Hneq. cbn. cbn in Hle. lia.
      * intros (_ & row & Hrow & Hlt).
        destruct (forallb np.is_str (concat nested)) eqn:E; [|done].
        pose proof (proj1 Hstr eq_refl) as Hall. rewrite Forall_forall in Hall.
        specialize (Hall _ Hrow). lia.
  - rewrite Hnh, Hrec in Hchunk. cbn [result_bind] in Hchunk.
    destruct (asarray_text _ chunk Hchunk Hne) as (Hdt & Hdim & Hobj).
    pose proof (asarray_rows _ _ Hchunk) as Hrows.
    rewrite Hrows, none_stored in Hobj.
    destruct (fields_are_scalar_str (header :: records)) as [Hsc Hnone].
    destruct Hdim as [[Hdim _]|(_ & Hsc' & _)]; [|congruence].
    split; split; try (by intros [? _]).
    + intros H. rewrite H in Hdim. discriminate.
    + by intros H%Hobj.
Qed.

Lemma promote_object dts : ∀ d0,
  fold_left np.promote dts d0 = np.object_ ↔ d0 = np.object_ ∨ np.object_ ∈ dts.
Proof.
  induction dts as [|dt dts IH]; intros d0; cbn [fold_left].
  - split; [by left|]. by intros [?|?%elem_of_nil].
  - rewrite IH, elem_of_cons. split.
    + intros [H|H]; [|by right; right].
      destruct d0, dt; try discriminate; auto.
    + intros [->|[<-|H]]; [left|left|by right]; by destruct d0 || destruct dt.
Qed.

(** C2, as the code has it.  The arrays hold text, never numbers.  A
    non-empty chunk has dtype str or object, and object exactly when one
    of its cells is [None]; it has two or three dimensions.  For the
    chunk of a file: it has three dimensions exactly when the file is
    read with [has_header] and its first record is blank, and dtype
    object exactly when it is read with [has_header] and some non-blank
    row has fewer fields than the header.  A successful call returns the
    two empty float arrays when no chunk is non-empty, and otherwise two
    arrays with the same number of rows and one and the same dtype, str
    or object, which is object exactly when some non-empty chunk has
    dtype object. *)
Theorem read_csv_returns_text_arrays (w : world) (path : string)
    (d : ascii) (h : bool) (enc : string) :
  (∀ csv_path chunk,
     chunk_of w d h enc csv_path = Ok chunk → nonempty chunk = true →
     ¬ numeric chunk ∧
     (np.dtype_of chunk = np.str_ ∨ np.dtype_of chunk = np.object_) ∧
     (np.ndim chunk = 2 ∨ np.ndim chunk = 3) ∧
     (np.dtype_of chunk = np.object_ ↔ csv.VNone ∈ concat (np.rows chunk))) ∧
  (∀ csv_path read text header records chunk,
     resolve w csv_path = Some (File read) → read enc = inr text →
     csv.reader text d = Ok (header :: records) →
     chunk_of w d h enc csv_path = Ok chunk → nonempty chunk = true →
     (np.ndim chunk = 3 ↔ h = true ∧ header = []) ∧
     (np.dtype_of chunk = np.object_ ↔
        h = true ∧ ∃ row, row ∈ nonblank records ∧ (length row < length header)%nat)) ∧
  (∀ coordinates attributes,
     outcome (read_csv path d h enc) w = Ok (coordinates, attributes) →
     ∃ csv_paths chunks,
       resolved_files w path = Ok csv_paths ∧
       Forall2 (λ csv_path chunk, chunk_of w d h enc csv_path = Ok chunk)
         csv_paths chunks ∧
       (List.filter nonempty chunks = [] ∧
        coordinates = np.empty [0; 3] ∧ attributes = np.empty [0; 0] ∨
        List.filter nonempty chunks ≠ [] ∧
        ¬ numeric coordinates ∧ ¬ numeric attributes ∧
        np.dtype_of attributes = np.dtype_of coordinates ∧
        length (np.rows attributes) = length (np.rows coordinates) ∧
        (np.dtype_of coordinates = np.str_ ∨ np.dtype_of coordinates = np.object_) ∧
        (np.dtype_of coordinates = np.object_ ↔
           ∃ chunk, chunk ∈ chunks ∧ nonempty chunk = true ∧
                    np.dtype_of chunk = np.object_))).
Proof.
  split; [|split].
  - intros csv_path chunk (nested & Hn)%chunk_of_asarray Hne.
    destruct (asarray_text nested chunk Hn Hne) as (Hdt & Hdim & Hobj).
    split; [unfold numeric; by destruct Hdt as [-> | ->]|].
    split; [done|]. split; [|done].
    destruct Hdim as [[? _]|[? _]]; auto.
  - intros csv_path read text header records chunk. apply chunk_of_file_text.
  - intros coordinates attributes (csv_paths & chunks & Hres & Hchunks & Hst)%read_csv_ok_inv.
    exists csv_paths, chunks. split; [done|]. split; [done|].
    assert (Hasarray : Forall (λ c, ∃ nested, np.asarray nested = Ok c) chunks).
    { clear -Hchunks. induction Hchunks; constructor; eauto using chunk_of_asarray. }
    pose proof Hst as Hst'. unfold stacked in Hst'.
    destruct (List.filter nonempty chunks) as [|k kept] eqn:Hkept.
    { left. by injection Hst' as <- <-. }
    right. split; [done|].
    destruct (np.concatenate (k :: kept)) as [data|] eqn:Hcat; [|discriminate].
    pose proof Hcat as Hcat'. rewrite <- Hkept in Hcat'.
    destruct (stacked_ok chunks data Hasarray Hcat')
      as (_ & Hdt & c & a & Hst2 & _ & _ & Hrc & Hra & Hdc & Hda).
    rewrite Hst in Hst2. injection Hst2 as -> ->.
    unfold numeric. rewrite Hdc, Hda, Hrc, Hra, !length_map.
    do 4 (split; [done|]).
    split; [destruct (np.dtype_of data) eqn:Edt; [by destruct Hdt|by left|by right]|].
    apply concatenate_ok in Hcat
      as (first & rest & m & trailing & [= <- <-] & _ & _ & _ & -> & _).
    rewrite promote_object.
    assert (Hmem : ∀ chunk, chunk ∈ k :: kept ↔ chunk ∈ chunks ∧ nonempty chunk = true).
    { intros chunk. rewrite <- Hkept, list_elem_of_In, filter_In, <- list_elem_of_In. done. }
    split.
    + intros [Hk|(chunk & Hc & Hin)%list_elem_of_fmap].
      * destruct (proj1 (Hmem k)) as [? ?]; [by left|]. eauto.
      * destruct (proj1 (Hmem chunk)) as [? ?]; [by right|]. eauto.
    + intros (chunk & Hin & Hne & Hobj).
      assert (Hin' : chunk ∈ k :: kept) by by apply Hmem.
      apply elem_of_cons in Hin' as [->|Hin']; [by left|].
      right. apply list_elem_of_fmap. eauto.
Qed.

Lemma read_csv_returns_text_arrays_witness :
  (∃ chunk,
     chunk_of irregular_world ","%char true "utf-8" "/odd/repeated.csv" = Ok chunk ∧
     np.ndim chunk = 2 ∧ np.dtype_of chunk = np.object_ ∧ ¬ numeric chunk) ∧
  (∃ chunk,
     chunk_of blank_header_world ","%char true "utf-8" "/odd/blank_header.csv" = Ok chunk ∧
     np.ndim chunk = 3 ∧ np.dtype_of chunk = np.str_) ∧
  (∃ coordinates attributes,
     outcome (read_csv "/data" ","%char true "utf-8") Sample.w0
     = Ok (coordinates, attributes) ∧
     np.dtype_of coordinates = np.str_ ∧ np.dtype_of attributes = np.str_ ∧
     length (np.rows attributes) = length (np.rows coordinates)).
Proof.
  split; [|split].
  - eexists. split; [reflexivity|].
    destruct (proj1 (proj2 (read_csv_returns_text_arrays irregular_world
                              "/odd/repeated.csv" ","%char true "utf-8"))
                "/odd/repeated.csv" _ _ ["x"; "y"; "x"] [["1"; "2"]; []; ["7"; "8"; "9"]] _
                eq_refl eq_refl eq_refl eq_refl eq_refl) as [Hdim Hobj].
    destruct (proj1 (read_csv_returns_text_arrays irregular_world
                       "/odd/repeated.csv" ","%char true "utf-8")
                "/odd/repeated.csv" _ eq_refl eq_refl) as (Hnum & _ & _ & _).
    split; [reflexivity|]. split; [|exact Hnum].
    apply Hobj. split; [done|]. exists ["1"; "2"]. split; [by left|]. cbn. lia.
  - eexists. split; [reflexivity|].
    destruct (proj1 (proj2 (read_csv_returns_text_arrays blank_header_world
                              "/odd/blank_header.csv" ","%char true "utf-8"))
                "/odd/blank_header.csv" _ _ [] [["abc"; "def"]] _
                eq_refl eq_refl eq_refl eq_refl eq_refl) as [Hdim _].
    split; [by apply Hdim|reflexivity].
  - eexists _, _. split; [reflexivity|].
    destruct (proj2 (proj2 (read_csv_returns_text_arrays Sample.w0 "/data" ","%char
                              true "utf-8")) _ _ eq_refl)
      as (csv_paths & chunks & _ & _ & [(_ & Hc & _)|(_ & _ & _ & Hsame & Hlen & _)]).
    + discriminate Hc.
    + split; [reflexivity|]. split; [reflexivity|]. exact Hlen.
Defined.

(** C2, as the specification words it, fails: the coordinates read from
    the sample directory are strings. *)
Lemma read_csv_arrays_not_numeric :
  ∃ coordinates attributes,
    outcome (read_csv "/data" ","%char true "utf-8") Sample.w0
    = Ok (coordinates, attributes) ∧
    np.rows coordinates = [ [csv.VStr "1"; csv.VStr "2"; csv.VStr "3"];
                            [csv.VStr "4"; csv.VStr "5"; csv.VStr "6"] ] ∧
    ¬ numeric coordinates ∧ ¬ numeric attributes.
Proof. eexists _, _. split; [reflexivity|]. split; [reflexivity|]. split; discriminate. Qed.

(** ** The world is only read *)

Lemma same_node_regular n n' :
  same_node n n' →
  (if n is Some (File _) then true else false)
  = (if n' is Some (File _) then true else false).
Proof. destruct n as [[| |]|], n' as [[| |]|]; simpl; intros H; by simplify_eq. Qed.

Lemma is_regular_same w w' path :
  same_files w w' → is_regular w path = is_regular w' path.
Proof. intros [_ H]. apply same_node_regular, H. Qed.

Lemma chunk_of_same w w' d h enc path :
  same_files w w' → chunk_of w d h enc path = chunk_of w' d h enc path.
Proof.
  intros [_ H]. specialize (H path). unfold same_node in H.
  destruct (resolve w path) as [[read|names|]|] eqn:E;
    destruct (resolve w' path) as [[read'|names'|]|] eqn:E'; simplify_eq.
  - apply chunk_of_same_files. by rewrite E, E'.
  - unfold chunk_of, outcome, read_chunk, open_read, bind, stat.
    cbv beta iota zeta. by rewrite E, E'.
  - apply chunk_of_same_files. by rewrite E, E'.
  - apply chunk_of_same_files. by rewrite E, E'.
Qed.

Lemma all_chunks_same w w' d h enc paths :
  same_files w w' → all_chunks w d h enc paths = all_chunks w' d h enc paths.
Proof.
  intros H. induction paths as [|p paths IH]; [done|].
  cbn [all_chunks]. by rewrite (chunk_of_same w w'), IH.
Qed.

Lemma filter_permutation {A} (f : A → bool) (l l' : list A) :
  l ≡ₚ l' → List.filter f l ≡ₚ List.filter f l'.
Proof.
  induction 1 as [|x l l' _ IH|x y l|l l' l'' _ IH _ IH']; cbn [List.filter].
  - done.
  - destruct (f x); by rewrite IH.
  - destruct (f x), (f y); try done. apply perm_swap.
  - by rewrite IH.
Qed.

Lemma csv_names_same w w' directory names names' :
  same_files w w' → names ≡ₚ names' →
  csv_names w directory names ≡ₚ csv_names w' directory names'.
Proof.
  intros Hs Hp. unfold csv_names.
  rewrite (filter_permutation _ _ _ Hp). apply Permutation_refl'.
  apply filter_ext. intros name. by rewrite (is_regular_same w w').
Qed.

Lemma resolved_files_same w w' path :
  same_files w w' → resolved_files w path = resolved_files w' path.
Proof.
  intros Hs. pose proof Hs as [He Hn]. unfold resolved_files. rewrite <- He.
  specialize (Hn (os_path.expanduser (env w) path)). unfold same_node in Hn.
  rewrite <- !(is_regular_same w w') by done.
  destruct (resolve w _) as [[read|names|]|] eqn:E;
    destruct (resolve w' _) as [[read'|names'|]|] eqn:E'; simplify_eq; try done.
  unfold csv_paths_of.
  rewrite (sorted_of_permutation _ (map (os_path.join (os_path.expanduser (env w) path))
                                     (csv_names w' (os_path.expanduser (env w) path) names'))).
  - done.
  - apply Permutation_map. by apply csv_names_same.
Qed.

Lemma same_node_refl n : same_node n n.
Proof. destruct n as [[| |]|]; simpl; reflexivity. Qed.

Lemma same_files_with_log w msg : same_files (with_log w msg) w.
Proof.
  split; [done|]. intros path. apply same_node_refl.
Qed.


(** The result of [read_csv] is a function of its arguments, of the
    environment and of the files, listings taken up to order. *)
Lemma read_csv_same w w' path d h enc :
  same_files w w' →
  outcome (read_csv path d h enc) w = outcome (read_csv path d h enc) w'.
Proof.
  intros Hs. rewrite !read_csv_outcome, (resolved_files_same w w') by done.
  destruct (resolved_files w' path) as [csv_paths|]; [|done].
  cbn [result_bind]. by rewrite (all_chunks_same w w').
Qed.

Lemma sample_worlds_same : same_files Sample.w0 Sample.w1.
Proof.
  split; [reflexivity|]. intros path. cbn [Sample.w0 Sample.w1 resolve].
  unfold Sample.files. cbn [list_to_map foldr fst snd curry uncurry].
  rewrite !lookup_insert. case_decide; [apply perm_swap|apply same_node_refl].
Qed.

(** C7. A call of [read_csv] leaves the environment, the files, and the
    record of what dipy loaded as they were and only adds to the log; its
    result is the same in any world with the same environment and files,
    whatever the log and whatever the order in which directories list
    their names; so a second run with the same arguments returns what the
    first returned. *)
Theorem read_csv_stateless (w : world) (path : string)
    (d : ascii) (h : bool) (enc : string) :
  (let w' := snd (read_csv path d h enc w) in
   env w' = env w ∧ resolve w' = resolve w ∧ dipy_load w' = dipy_load w ∧
   dipy_messages w' = dipy_messages w ∧
   load_calls w' = load_calls w ∧ ∃ msgs, log w' = log w ++ msgs) ∧
  (∀ w2, same_files w w2 →
     outcome (read_csv path d h enc) w2 = outcome (read_csv path d h enc) w) ∧
  outcome (read_csv path d h enc) (snd (read_csv path d h enc w))
  = outcome (read_csv path d h enc) w.
Proof.
  split; [|split].
  - cbv zeta. destruct (read_csv_world w path d h enc) as [->|[msg ->]].
    + repeat split. exists []. by rewrite app_nil_r.
    + repeat split. by exists [msg].
  - intros w2 Hs. symmetry. by apply read_csv_same.
  - destruct (read_csv_world w path d h enc) as [->|[msg ->]]; [done|].
    apply read_csv_same, same_files_with_log.
Qed.

Lemma read_csv_stateless_witness :
  outcome (read_csv "/data" ","%char true "utf-8") Sample.w1
  = outcome (read_csv "/data" ","%char true "utf-8") Sample.w0.
Proof.
  exact (proj1 (proj2 (read_csv_stateless Sample.w0 "/data" ","%char true "utf-8"))
           Sample.w1 sample_worlds_same).
Defined.

(** * Further properties *)

(** ** [validate_path] and [read_tractogram] *)

(** X1.  A path that [validate_path] has returned validates to itself, where no
    home directory begins with a tilde: validating twice, as [read_csv]
    does, is validating once. *)
Theorem validate_path_of_validated (w : world) (path validated : string) :
  tilde_free_homes (env w) →
  outcome (validate_path path) w = Ok validated →
  validate_path validated w = (Ok validated, w).
Proof.
  intros Hhomes. unfold outcome. rewrite !validate_path_run. cbn [fst].
  destruct (is_regular w (os_path.expanduser (env w) path)) eqn:Hreg; [|discriminate].
  intros [= <-]. rewrite expanduser_idempotent by by left. by rewrite Hreg.
Qed.

Lemma validate_path_of_validated_witness :
  validate_path "/home/user/points.CSV" Sample.w0
  = (Ok "/home/user/points.CSV", Sample.w0).
Proof.
  apply (validate_path_of_validated Sample.w0 "~/points.CSV").
  - exact sample_homes_tilde_free.
  - reflexivity.
Defined.

Lemma read_tractogram_run w file_path reference :
  let validated := os_path.expanduser (env w) file_path in
  let logged := with_log w ("Loading tractogram from " +:+ validated +:+ " ...") in
  read_tractogram file_path reference w =
    if is_regular w validated then
      match (match reference with
             | Some r => Some r
             | None =>
                 if Str.endswith validated ".trk" || Str.endswith validated ".trx"
                 then Some (RefStr "same") else None
             end) with
      | None => (Raise reference_required, logged)
      | Some r =>
          let asked :=
            World (env w) (resolve w) (dipy_load w) (dipy_messages w)
              (log logged ++ dipy_messages w validated r)
              (load_calls w ++ [(validated, r)]) in
          match dipy_load w validated r with
          | Raise e => (Raise e, asked)
          | Ok LoadedFalse => (Raise (failed_to_load validated), asked)
          | Ok (LoadedSft sft) =>
              if sft_bool sft then
                (Ok sft,
                 if has_dismatrix sft
                 then with_log asked
                        "Dissimilarity matrix already present in the tractogram data."
                 else asked)
              else (Raise (failed_to_load validated), asked)
          end
      end
    else (Raise (NotFoundError validated), w).
Proof.
  intros validated logged. unfold read_tractogram, bind at 1.
  rewrite validate_path_run. fold validated.
  destruct (is_regular w validated); [|reflexivity].
  unfold bind at 1 2, logging_info at 1. fold (with_log w ("Loading tractogram from " +:+ validated +:+ " ...")).
  fold logged.
  assert (Hload : ∀ r,
    bind (load_tractogram validated r)
      (λ sft, match sft with
              | LoadedFalse => raise (failed_to_load validated)
              | LoadedSft sft0 =>
                  if sft_bool sft0
                  then bind (if has_dismatrix sft0
                             then logging_info
                                    "Dissimilarity matrix already present in the tractogram data."
                             else ret tt) (λ _, ret sft0)
                  else raise (failed_to_load validated)
              end) logged
    = let asked := World (env w) (resolve w) (dipy_load w) (dipy_messages w)
                     (log logged ++ dipy_messages w validated r)
                     (load_calls w ++ [(validated, r)]) in
      match dipy_load w validated r with
      | Raise e => (Raise e, asked)
      | Ok LoadedFalse => (Raise (failed_to_load validated), asked)
      | Ok (LoadedSft sft) =>
          if sft_bool sft then
            (Ok sft,
             if has_dismatrix sft
             then with_log asked
                    "Dissimilarity matrix already present in the tractogram data."
             else asked)
          else (Raise (failed_to_load validated), asked)
      end).
  { intros r. unfold bind at 1, load_tractogram.
    cbn [logged with_log env resolve dipy_load dipy_messages log load_calls].
    destruct (dipy_load w validated r) as [[|sft]|e]; try reflexivity.
    destruct (sft_bool sft); [|reflexivity].
    unfold bind, ret, logging_info. by destruct (has_dismatrix sft). }
  destruct reference as [r|].
  - unfold ret at 1. apply Hload.
  - destruct (Str.endswith validated ".trk" || Str.endswith validated ".trx").
    + unfold ret at 1. apply Hload.
    + reflexivity.
Qed.

(** X2.  [read_tractogram] returns only what dipy loaded for the validated
    path, under the reference given or, without one, under "same"; and it
    never returns a tractogram whose truth value is false. *)
Theorem read_tractogram_returns_loaded (w : world) (file_path : string)
    (reference : option Reference) (sft : StatefulTractogram) :
  outcome (read_tractogram file_path reference) w = Ok sft →
  let validated := os_path.expanduser (env w) file_path in
  is_regular w validated = true ∧ sft_bool sft = true ∧
  dipy_load w validated (default (RefStr "same") reference) = Ok (LoadedSft sft).
Proof.
  unfold outcome. rewrite read_tractogram_run. cbv zeta.
  destruct (is_regular w _); [|discriminate].
  destruct reference as [r|]; cbn [default].
  - destruct (dipy_load w _ r) as [[|s]|] eqn:Hl; try discriminate.
    destruct (sft_bool s) eqn:Hb; [|discriminate]. intros [= <-]. auto.
  - destruct (_ || _); [|discriminate].
    destruct (dipy_load w _ (RefStr "same")) as [[|s]|] eqn:Hl; try discriminate.
    destruct (sft_bool s) eqn:Hb; [|discriminate]. intros [= <-]. auto.
Qed.

Lemma read_tractogram_returns_loaded_witness :
  sft_bool (Sft true (Some ["dismatrix"])) = true ∧
  dipy_load Sample.w0 "/tracts/bundle.trk" (RefStr "same")
  = Ok (LoadedSft (Sft true (Some ["dismatrix"]))).
Proof.
  apply (read_tractogram_returns_loaded Sample.w0 "/tracts/bundle.trk" None).
  reflexivity.
Defined.

(** X3.  What [read_tractogram] logs and asks of dipy.  For a missing file
    nothing is logged and dipy is not called.  A call that returns a
    tractogram has called dipy exactly once and the log has grown by the
    loading message, then what dipy logged while loading, then the
    dissimilarity message exactly when the tractogram carries the key
    "dismatrix".  A call that fails after validation either asked for a
    reference, with the loading message logged and dipy not called, or
    failed in or after dipy's load, with the loading message and dipy's
    messages logged and nothing after them. *)
Theorem read_tractogram_effects (w : world) (file_path : string)
    (reference : option Reference) :
  let validated := os_path.expanduser (env w) file_path in
  let loading := "Loading tractogram from " +:+ validated +:+ " ..." in
  let w' := snd (read_tractogram file_path reference w) in
  (is_regular w validated = false → w' = w) ∧
  (∀ sft, outcome (read_tractogram file_path reference) w = Ok sft →
     let ref := default (RefStr "same") reference in
     load_calls w' = load_calls w ++ [(validated, ref)] ∧
     log w' = log w ++ [loading] ++ dipy_messages w validated ref ++
              (if has_dismatrix sft
               then ["Dissimilarity matrix already present in the tractogram data."]
               else [])) ∧
  (∀ e, is_regular w validated = true →
     outcome (read_tractogram file_path reference) w = Raise e →
     (e = reference_required ∧ reference = None ∧
      load_calls w' = load_calls w ∧ log w' = log w ++ [loading]) ∨
     (let ref := default (RefStr "same") reference in
      load_calls w' = load_calls w ++ [(validated, ref)] ∧
      log w' = log w ++ [loading] ++ dipy_messages w validated ref)).
Proof.
  cbv zeta. unfold outcome. rewrite read_tractogram_run. cbv zeta.
  destruct (is_regular w _); cbn [fst snd];
    [|repeat split; intros; discriminate].
  split; [discriminate|].
  destruct (match reference with
            | Some r => Some r
            | None => if Str.endswith _ ".trk" || Str.endswith _ ".trx"
                      then Some (RefStr "same") else None
            end) as [r|] eqn:Hr.
  2: { cbn [fst snd with_log env resolve log load_calls].
       split; [intros; discriminate|]. intros e _ [= <-]. left.
       destruct reference; [discriminate|done]. }
  assert (Hdef : default (RefStr "same") reference = r).
  { destruct reference as [r0|]; cbn [default].
    - by injection Hr as ->.
    - match type of Hr with context [if ?b then _ else _] => destruct b end;
        [by injection Hr as <-|discriminate]. }
  rewrite Hdef. clear Hr Hdef.
  assert (Hfail : ∀ e0 : exn,
    (e0 = reference_required ∧ reference = None ∧
     load_calls w ++ [(os_path.expanduser (env w) file_path, r)] = load_calls w ∧
     (log w ++ ["Loading tractogram from " +:+ os_path.expanduser (env w) file_path +:+ " ..."])
       ++ dipy_messages w (os_path.expanduser (env w) file_path) r
     = log w ++ ["Loading tractogram from " +:+ os_path.expanduser (env w) file_path +:+ " ..."]) ∨
    (load_calls w ++ [(os_path.expanduser (env w) file_path, r)]
     = load_calls w ++ [(os_path.expanduser (env w) file_path, r)] ∧
     (log w ++ ["Loading tractogram from " +:+ os_path.expanduser (env w) file_path +:+ " ..."])
       ++ dipy_messages w (os_path.expanduser (env w) file_path) r
     = log w ++ ["Loading tractogram from " +:+ os_path.expanduser (env w) file_path +:+ " ..."]
         ++ dipy_messages w (os_path.expanduser (env w) file_path) r)).
  { intros e0. right. by rewrite <- app_assoc. }
  destruct (dipy_load w _ r) as [[|s]|];
    [cbn [fst snd with_log env resolve log load_calls];
     split; [intros; discriminate|intros; apply Hfail] | |
     cbn [fst snd with_log env resolve log load_calls];
     split; [intros; discriminate|intros; apply Hfail]].
  destruct (sft_bool s);
    [|cbn [fst snd with_log env resolve log load_calls];
      split; [intros; discriminate|intros; apply Hfail]].
  cbn [fst]. split; [|intros; discriminate].
  intros sft [= <-]. destruct (has_dismatrix s);
    cbn [fst snd with_log env resolve log load_calls]; (split; [done|]).
  - by rewrite <- !app_assoc.
  - by rewrite app_nil_r, <- !app_assoc.
Qed.

Lemma read_tractogram_effects_witness :
  log (snd (read_tractogram "/tracts/bundle.trk" None Sample.w0))
  = [ "Loading tractogram from /tracts/bundle.trk ...";
      "dipy: loading /tracts/bundle.trk";
      "Dissimilarity matrix already present in the tractogram data." ] ∧
  snd (read_tractogram "/tracts/missing.trk" None Sample.w0) = Sample.w0.
Proof.
  split.
  - apply (proj1 (proj2 (read_tractogram_effects Sample.w0 "/tracts/bundle.trk" None))
           (Sft true (Some ["dismatrix"]))).
    reflexivity.
  - apply (read_tractogram_effects Sample.w0 "/tracts/missing.trk" None). reflexivity.
Defined.

(** X4.  The test for .trk and .trx is on the path as written, not lower-cased
    as in [read_csv]: a file whose name ends in any other four characters,
    .TRK among them, needs a reference. *)
Theorem read_tractogram_extension_case (w : world) (file_path suffix : string) :
  let validated := os_path.expanduser (env w) file_path in
  is_regular w validated = true →
  Str.endswith validated suffix = true →
  String.length suffix = 4 → suffix ≠ ".trk" → suffix ≠ ".trx" →
  outcome (read_tractogram file_path None) w = Raise reference_required ∧
  load_calls (snd (read_tractogram file_path None w)) = load_calls w.
Proof.
  intros validated Hreg Hsuf Hlen Hk Hx.
  assert (Hname : Str.endswith validated ".trk" || Str.endswith validated ".trx" = false).
  { apply orb_false_iff. split.
    - destruct (Str.endswith validated ".trk") eqn:E; [|done].
      destruct Hk. by apply (endswith_same_length validated).
    - destruct (Str.endswith validated ".trx") eqn:E; [|done].
      destruct Hx. by apply (endswith_same_length validated). }
  unfold outcome. rewrite read_tractogram_unnamed by done. done.
Qed.

Lemma read_tractogram_extension_case_witness :
  outcome (read_tractogram "/tracts/BUNDLE.TRK" None) capitals_world
  = Raise reference_required.
Proof.
  apply (read_tractogram_extension_case capitals_world "/tracts/BUNDLE.TRK" ".TRK");
    [reflexivity|reflexivity|reflexivity|discriminate|discriminate].
Defined.

(** ** More on [read_csv] *)

Lemma zip_with_take_drop {A} (k : nat) (rows : list (list A)) :
  zip_with app (map (take k) rows) (map (drop k) rows) = rows.
Proof.
  induction rows as [|row rows IH]; [done|].
  cbn [map zip_with]. by rewrite take_drop, IH.
Qed.

(** X5.  Nothing is lost in the split.  Put side by side, row by row, the
    coordinates and the attributes that [read_csv] returns are the rows of
    the non-empty chunks in file order; the two arrays have the same
    number of rows, and a coordinate row never has more than three cells
    (it has fewer when the files have fewer than three columns, which is
    not an error). *)
Theorem read_csv_split_recomposes (w : world) (path : string)
    (d : ascii) (h : bool) (enc : string) (coordinates attributes : np.ndarray) :
  outcome (read_csv path d h enc) w = Ok (coordinates, attributes) →
  ∃ csv_paths chunks,
    resolved_files w path = Ok csv_paths ∧
    all_chunks w d h enc csv_paths = Ok chunks ∧
    zip_with app (np.rows coordinates) (np.rows attributes)
    = concat (map np.rows (List.filter nonempty chunks)) ∧
    length (np.rows coordinates) = length (np.rows attributes) ∧
    Forall (λ row, (length row <= 3)%nat) (np.rows coordinates).
Proof.
  intros (csv_paths & chunks & Hfiles & Hchunks & Hst)%read_csv_ok_inv.
  exists csv_paths, chunks. split; [done|]. split; [by apply all_chunks_Forall2|].
  assert (Hasarray : Forall (λ c, ∃ nested, np.asarray nested = Ok c) chunks).
  { clear -Hchunks. induction Hchunks; constructor; eauto using chunk_of_asarray. }
  pose proof Hst as Hst'. unfold stacked in Hst'.
  destruct (List.filter nonempty chunks) as [|k kept] eqn:Hkept.
  { injection Hst' as <- <-. repeat split. constructor. }
  destruct (np.concatenate (k :: kept)) as [data|] eqn:Hcat; [|discriminate].
  rewrite <- Hkept in Hcat.
  destruct (stacked_ok chunks data Hasarray Hcat)
    as (Hrows & _ & c & a & Hst2 & _ & _ & Hrc & Hra & _).
  rewrite Hst in Hst2. injection Hst2 as -> ->.
  rewrite Hrc, Hra, zip_with_take_drop, !length_map, <- Hkept, <- Hrows.
  repeat split. apply Forall_forall. intros row (r & -> & _)%list_elem_of_fmap.
  rewrite length_take. lia.
Qed.

Lemma read_csv_split_recomposes_witness :
  ∃ csv_paths chunks,
    resolved_files Sample.w0 "/mixed/narrow.csv" = Ok csv_paths ∧
    all_chunks Sample.w0 ","%char true "utf-8" csv_paths = Ok chunks ∧
    zip_with app [[csv.VStr "5"; csv.VStr "6"]] [[]]
    = concat (map np.rows (List.filter nonempty chunks)) ∧
    length [[csv.VStr "5"; csv.VStr "6"]] = length [ @nil csv.value ] ∧
    Forall (λ row, (length row <= 3)%nat) [[csv.VStr "5"; csv.VStr "6"]].
Proof.
  exact (read_csv_split_recomposes Sample.w0 "/mixed/narrow.csv" ","%char true "utf-8"
           (np.Array [1; 2] np.str_ [[csv.VStr "5"; csv.VStr "6"]])
           (np.Array [1; 0] np.str_ [[]]) eq_refl).
Defined.

(** X6.  Errors propagate at once: when the files before one parse and that
    one fails, [read_csv] raises its exception, whatever the files after
    it hold, and no partial result is returned. *)
Theorem read_csv_first_failure (w : world) (path : string)
    (d : ascii) (h : bool) (enc : string)
    (before after : list string) (csv_path : string) (e : exn) :
  resolved_files w path = Ok (before ++ csv_path :: after) →
  Forall (λ p, ∃ chunk, chunk_of w d h enc p = Ok chunk) before →
  chunk_of w d h enc csv_path = Raise e →
  outcome (read_csv path d h enc) w = Raise e.
Proof.
  intros Hfiles Hbefore Hfail.
  rewrite read_csv_outcome, Hfiles. cbn [result_bind].
  rewrite all_chunks_app. cbn [all_chunks]. rewrite Hfail.
  assert (∃ chunks, all_chunks w d h enc before = Ok chunks) as (chunks & ->).
  { clear Hfiles. induction Hbefore as [|p ps Hp _ IH]; [by exists []|].
    destruct Hp as (chunk & Hc). destruct IH as (chunks & Hcs).
    exists (chunk :: chunks). cbn [all_chunks]. by rewrite Hc, Hcs. }
  done.
Qed.

Lemma read_csv_first_failure_witness :
  outcome (read_csv "/batch" ","%char true "utf-8") batch_world
  = Raise (UnicodeDecodeError
             "'utf-8' codec can't decode byte 0xe9 in position 0: invalid continuation byte").
Proof.
  apply (read_csv_first_failure batch_world "/batch" ","%char true "utf-8"
           ["/batch/a.csv"] ["/batch/c.csv"] "/batch/b.csv").
  - reflexivity.
  - repeat constructor. eexists. reflexivity.
  - reflexivity.
Defined.

(** X7.  What [read_csv] logs.  When the argument does not resolve to files
    (NotFoundError, EmptyInputError, InvalidFormatError) nothing is logged
    and the world is as before.  Once it has resolved, exactly one message
    is logged, naming the directory or the file, also when a file then
    fails to parse. *)
Theorem read_csv_log (w : world) (path : string)
    (d : ascii) (h : bool) (enc : string) :
  let resolved := os_path.expanduser (env w) path in
  let w' := snd (read_csv path d h enc w) in
  (∀ e, resolved_files w path = Raise e →
     outcome (read_csv path d h enc) w = Raise e ∧ specified_error e ∧ w' = w) ∧
  (∀ csv_paths, resolved_files w path = Ok csv_paths →
     log w' = log w ++
       [ match resolve w resolved with
         | Some (Dir _) => "Loading CSV files from directory " +:+ resolved +:+ " ..."
         | _ => "Loading CSV file from " +:+ os_path.expanduser (env w) resolved +:+ " ..."
         end ]).
Proof.
  cbv zeta. unfold outcome, resolved_files.
  destruct (resolve w (os_path.expanduser (env w) path)) as [[read|names|]|] eqn:E.
  2: { rewrite (read_csv_dir_run w path d h enc names E).
       destruct (csv_paths_of _ _ _); split; intros; simplify_eq; try done.
       repeat split. eexists. eauto. }
  all: rewrite read_csv_file_run by (intros names; by rewrite E); cbv zeta;
    destruct (is_regular w _);
    [destruct (is_csv_name _); [rewrite stack_chunks_run|]|];
    split; intros; simplify_eq; try done;
    repeat split; eexists; eauto.
Qed.

Lemma read_csv_log_witness :
  log (snd (read_csv "/mixed" ","%char true "utf-8" Sample.w0))
  = ["Loading CSV files from directory /mixed ..."] ∧
  snd (read_csv "/notes.txt" ","%char true "utf-8" Sample.w0) = Sample.w0.
Proof.
  split.
  - apply (proj2 (read_csv_log Sample.w0 "/mixed" ","%char true "utf-8")
             ["/mixed/narrow.csv"; "/mixed/wide.csv"]).
    reflexivity.
  - apply (proj1 (read_csv_log Sample.w0 "/notes.txt" ","%char true "utf-8")
             (InvalidFormatError "/notes.txt")).
    reflexivity.
Defined.

(** ** Rows of a file with a header *)

(** X8.  With a header, a file none of whose rows is longer than the header
    always parses: the chunk has one row for each non-blank record after
    the first and one column for each distinct field name (a name that
    the header repeats gives one column, short rows are filled up with
    [None]).  Its dtype is object exactly when some row is shorter than
    the header, and str exactly when none is; its cells are the values of
    the rows as that dtype stores them. *)
Theorem header_chunk_columns (w : world) (d : ascii) (enc csv_path : string)
    (read : string → read_error + string) (text : string)
    (header : list string) (records : list (list string)) :
  resolve w csv_path = Some (File read) → read enc = inr text →
  csv.reader text d = Ok (header :: records) →
  Forall (λ row, (length row <= length header)%nat) records →
  nonblank records ≠ [] →
  ∃ chunk,
    chunk_of w d true enc csv_path = Ok chunk ∧
    np.shape chunk = [length (nonblank records); length (distinct header)] ∧
    (np.dtype_of chunk = np.object_ ↔
       ∃ row, row ∈ nonblank records ∧ (length row < length header)%nat) ∧
    (np.dtype_of chunk = np.str_ ↔
       Forall (λ row, length row = length header) (nonblank records)) ∧
    np.rows chunk
    = map (λ row, map (np.stored (np.dtype_of chunk))
                    (csv.dict_values (csv.make_row header row)))
        (nonblank records) ∧
    nonempty chunk = true.
Proof.
  intros Hfile Hread Hrec Hlen Hne.
  rewrite (proj1 (chunk_of_file w d enc csv_path read text Hfile Hread)).
  unfold csv.DictReader. rewrite Hrec. cbn [result_bind]. fold (nonblank records).
  rewrite map_map.
  set (nested := map (λ row, csv.dict_values (csv.make_row header row)) (nonblank records)).
  assert (Hheader : header ≠ []).
  { destruct (nonblank records) as [|row rows] eqn:E; [done|].
    assert (Hin : In row (nonblank records)) by (rewrite E; by left).
    apply filter_In in Hin as [Hin Hb]. intros ->.
    rewrite List.Forall_forall in Hlen. specialize (Hlen _ Hin).
    destruct row; [done|]. cbn in Hlen. lia. }
  assert (Hlen' : Forall (λ row, (length row <= length header)%nat) (nonblank records)).
  { apply Forall_forall. intros row Hrow.
    apply list_elem_of_In, filter_In in Hrow as [Hrow _].
    rewrite List.Forall_forall in Hlen. by apply Hlen. }
  pose proof (asarray_of_scalars nested (length (distinct header))) as Has.
  cbv zeta in Has. rewrite Has; clear Has.
  - eexists. split; [reflexivity|]. cbn [np.shape np.rows np.dtype_of].
    pose proof (header_rows_all_str header (nonblank records) Hlen') as Hstr.
    fold nested in Hstr.
    split; [unfold nested; by rewrite length_map|].
    split; [|split; [|split]].
    + destruct (forallb np.is_str (concat nested)) eqn:E.
      * split; [done|]. intros (row & Hrow & Hshort).
        pose proof (proj1 Hstr eq_refl) as Hall. rewrite Forall_forall in Hall.
        specialize (Hall _ Hrow). lia.
      * split; [|done]. intros _.
        destruct (decide (Forall (λ row, length row = length header) (nonblank records)))
          as [Hall|Hnot].
        { apply Hstr in Hall. discriminate. }
        apply not_Forall_Exists in Hnot; [|apply _].
        apply Exists_exists in Hnot as (row & Hrow & Hneq). exists row. split; [done|].
        rewrite Forall_forall in Hlen'. specialize (Hlen' _ Hrow). cbn in Hneq. lia.
    + destruct (forallb np.is_str (concat nested)) eqn:E.
      * split; [|done]. intros _. by apply Hstr.
      * split; [done|]. intros Hall%Hstr. discriminate.
    + unfold nested. by rewrite map_map.
    + unfold nonempty, np.size. cbn [np.shape fold_right].
      apply distinct_nonempty in Hheader. unfold nested. rewrite length_map.
      destruct (nonblank records), (distinct header); done.
  - unfold nested. by destruct (nonblank records).
  - intros H0. apply distinct_nonempty in Hheader. by destruct (distinct header).
  - unfold nested. apply Forall_fmap, Forall_forall. intros row Hrow.
    rewrite Forall_forall in Hlen'. by apply make_row_columns, Hlen'.
Qed.

Lemma header_chunk_columns_witness :
  ∃ chunk,
    chunk_of irregular_world ","%char true "utf-8" "/odd/repeated.csv" = Ok chunk ∧
    np.shape chunk = [2; 2] ∧
    np.dtype_of chunk = np.object_ ∧
    np.rows chunk = [ [csv.VNone; csv.VStr "2"]; [csv.VStr "9"; csv.VStr "8"] ].
Proof.
  destruct (header_chunk_columns irregular_world ","%char "utf-8" "/odd/repeated.csv"
              _ _ ["x"; "y"; "x"] [["1"; "2"]; []; ["7"; "8"; "9"]]
              eq_refl eq_refl eq_refl
              ltac:(repeat constructor) ltac:(discriminate))
    as (chunk & Hchunk & Hshape & Hobject & _ & Hrows & _).
  assert (Hdt : np.dtype_of chunk = np.object_).
  { apply Hobject. exists ["1"; "2"]. split; [by left|]. cbn. lia. }
  exists chunk. rewrite Hrows, Hdt. done.
Defined.

(** X9.  A regular file read with and without its header.  When the header
    names are distinct and every record has as many fields as the header,
    the chunk read with [has_header] is a str array of the records after
    the first, in order; read without, it holds the same rows below the
    header line.  Each cell is the field as a str array stores it: the
    text of the field without the NUL characters at its end. *)
Theorem regular_file_chunks (w : world) (d : ascii) (enc csv_path : string)
    (read : string → read_error + string) (text : string)
    (header : list string) (records : list (list string)) :
  resolve w csv_path = Some (File read) → read enc = inr text →
  csv.reader text d = Ok (header :: records) →
  NoDup header → header ≠ [] → records ≠ [] →
  Forall (λ row, length row = length header) records →
  let cell := λ field, csv.VStr (Str.rstrip np.NUL field) in
  chunk_of w d true enc csv_path
  = Ok (np.Array [length records; length header] np.str_ (map (map cell) records)) ∧
  chunk_of w d false enc csv_path
  = Ok (np.Array [S (length records); length header] np.str_
          (map cell header :: map (map cell) records)).
Proof.
  intros Hfile Hread Hrec Hnd Hh Hr Hall. cbv zeta.
  destruct (chunk_of_file w d enc csv_path read text Hfile Hread) as [-> ->].
  assert (Hn : length header ≠ 0) by by destruct header.
  split.
  - unfold csv.DictReader. rewrite Hrec. cbn [result_bind].
    assert (Hnb : List.filter (λ row, negb (csv.is_blank row)) records = records).
    { apply forallb_filter_id, forallb_forall. intros row Hrow.
      rewrite List.Forall_forall in Hall. specialize (Hall _ Hrow).
      destruct row; [by destruct header|done]. }
    rewrite Hnb, map_map.
    rewrite (map_ext_Forall _ (map csv.VStr)).
    + by apply asarray_of_fields.
    + eapply Forall_impl; [exact Hall|]. intros row Hrow. by apply make_row_full.
  - rewrite Hrec. cbn [result_bind].
    rewrite (asarray_of_fields (header :: records) (length header)); try done.
    by constructor.
Qed.

Lemma regular_file_chunks_witness :
  chunk_of Sample.w0 ","%char true "utf-8" "/mixed/wide.csv"
  = Ok (np.Array [1; 4] np.str_
          [[csv.VStr "1"; csv.VStr "2"; csv.VStr "3"; csv.VStr "4"]]) ∧
  chunk_of Sample.w0 ","%char false "utf-8" "/mixed/wide.csv"
  = Ok (np.Array [2; 4] np.str_
          [ [csv.VStr "a"; csv.VStr "b"; csv.VStr "c"; csv.VStr "d"];
            [csv.VStr "1"; csv.VStr "2"; csv.VStr "3"; csv.VStr "4"] ]).
Proof.
  refine (regular_file_chunks Sample.w0 ","%char "utf-8" "/mixed/wide.csv"
            _ _ ["a"; "b"; "c"; "d"] [["1"; "2"; "3"; "4"]]
            eq_refl eq_refl eq_refl _ ltac:(discriminate) ltac:(discriminate)
            ltac:(repeat constructor)).
  apply (bool_decide_unpack _). reflexivity.
Defined.

(** X10.  With a header that is not blank, one row with more fields than the
    header makes the whole file fail: [np.asarray] refuses the rows with
    numpy's ValueError, which is none of the specified errors. *)
Theorem header_long_row_fails (w : world) (d : ascii) (enc csv_path : string)
    (read : string → read_error + string) (text : string)
    (header : list string) (records : list (list string)) (long : list string) :
  resolve w csv_path = Some (File read) → read enc = inr text →
  csv.reader text d = Ok (header :: records) →
  header ≠ [] → long ∈ records → (length header < length long)%nat →
  ∃ after, chunk_of w d true enc csv_path = Raise (np.inhomogeneous after) ∧
           ¬ specified_error (np.inhomogeneous after).
Proof.
  intros Hfile Hread Hrec Hh Hin Hlen.
  rewrite (proj1 (chunk_of_file w d enc csv_path read text Hfile Hread)).
  unfold csv.DictReader. rewrite Hrec. cbn [result_bind]. fold (nonblank records).
  assert (Hlong : long ∈ nonblank records).
  { apply list_elem_of_In, filter_In. rewrite <- list_elem_of_In.
    split; [done|]. destruct long; [cbn in Hlen; lia|done]. }
  destruct (make_row_long header long Hh Hlen) as (c & vs & surplus & Hvals & _).
  destruct (nonblank records) as [|row rows] eqn:E; [by apply elem_of_nil in Hlong|].
  cbn [map].
  destruct (make_row_head header row Hh) as (c0 & values & Hrow & Hc0).
  destruct (asarray_refuses_lists
              (csv.dict_values (csv.make_row header row))
              (map csv.dict_values (map (csv.make_row header) rows))
              c0 values surplus Hrow Hc0) as (after & Hfail).
  - exists (csv.dict_values (csv.make_row header long)). split.
    + change (csv.dict_values (csv.make_row header row)
              :: map csv.dict_values (map (csv.make_row header) rows))
        with (map csv.dict_values (map (csv.make_row header) (row :: rows))).
      rewrite map_map. apply list_elem_of_fmap. eauto.
    + rewrite Hvals. apply elem_of_cons; right. apply elem_of_app; right.
      by apply list_elem_of_singleton.
  - exists after. split; [done|].
    apply raised_below_not_specified. left. eauto.
Qed.

Lemma header_long_row_fails_witness :
  ∃ after,
    chunk_of irregular_world ","%char true "utf-8" "/odd/long.csv"
    = Raise (np.inhomogeneous after) ∧
    ¬ specified_error (np.inhomogeneous after).
Proof.
  exact (header_long_row_fails irregular_world ","%char "utf-8" "/odd/long.csv"
           _ _ ["x"; "y"] [["1"; "2"; "3"]] ["1"; "2"; "3"]
           eq_refl eq_refl eq_refl ltac:(discriminate)
           ltac:(repeat constructor) ltac:(repeat constructor)).
Defined.

(** ** A directory and the file in it *)

Lemma join_ends_with_name directory name :
  ∃ before, os_path.join directory name = before +:+ name.
Proof.
  unfold os_path.join. destruct (Str.startswith name "/"); [by exists ""|].
  destruct (_ || _); [by exists directory|].
  exists (directory +:+ "/"). by rewrite string_app_assoc.
Qed.

Lemma is_csv_name_join directory name :
  is_csv_name name = true → is_csv_name (os_path.join directory name) = true.
Proof.
  unfold is_csv_name. intros H.
  destruct (join_ends_with_name directory name) as (before & ->).
  rewrite lower_app. by apply endswith_app.
Qed.

(** X11.  A directory that holds one CSV file, beside anything that is not a
    CSV file, reads as that file reads on its own. *)
Theorem read_csv_directory_of_one_file (w : world) (dir_path file_path : string)
    (d : ascii) (h : bool) (enc : string) (names : list string) (name : string) :
  tilde_free_homes (env w) →
  let directory := os_path.expanduser (env w) dir_path in
  resolve w directory = Some (Dir names) →
  csv_names w directory names = [name] →
  os_path.expanduser (env w) file_path = os_path.join directory name →
  outcome (read_csv dir_path d h enc) w = outcome (read_csv file_path d h enc) w.
Proof.
  intros Hhomes directory Hdir Hnames Hfile.
  assert (Hname : name ∈ csv_names w directory names) by (rewrite Hnames; by left).
  apply elem_of_csv_names in Hname as (_ & Hreg & Hcsv).
  apply (is_csv_name_join directory) in Hcsv.
  rewrite !read_csv_outcome. f_equal.
  unfold resolved_files. fold directory. rewrite Hdir.
  unfold csv_paths_of. rewrite Hnames. cbn [map].
  change (Str.sorted [os_path.join directory name]) with [os_path.join directory name].
  assert (Hidem : os_path.expanduser (env w) (os_path.expanduser (env w) file_path)
                  = os_path.expanduser (env w) file_path)
    by (apply expanduser_idempotent; by left).
  rewrite Hidem, Hfile, Hreg, Hcsv.
  unfold is_regular in Hreg.
  by destruct (resolve w (os_path.join directory name)) as [[| |]|].
Qed.

Lemma read_csv_directory_of_one_file_witness :
  outcome (read_csv "/headers" ","%char true "utf-8") Sample.w0
  = outcome (read_csv "/headers/only_header.csv" ","%char true "utf-8") Sample.w0.
Proof.
  exact (read_csv_directory_of_one_file Sample.w0 "/headers" "/headers/only_header.csv"
           ","%char true "utf-8" ["only_header.csv"] "only_header.csv"
           sample_homes_tilde_free eq_refl eq_refl eq_refl).
Defined.

(** ** [read_mesh] and [read_nifti] *)

Lemma in_world_validate_path path s :
  in_world (validate_path path) s
  = (if is_regular (io s) (os_path.expanduser (env (io s)) path)
     then Ok (os_path.expanduser (env (io s)) path)
     else Raise (NotFoundError (os_path.expanduser (env (io s)) path)),
     Session (io s) (libs s) (calls s)).
Proof. unfold in_world. by rewrite validate_path_run. Qed.

Lemma read_mesh_run file_path texture s :
  let w := io s in
  let validated := os_path.expanduser (env w) file_path in
  let logged := with_log w ("Loading mesh from " +:+ validated +:+ " ...") in
  let loaded := after_call (libs s) (Call_load_mesh validated) logged in
  let asked := Session loaded (libs s) (calls s ++ [Call_load_mesh validated]) in
  read_mesh file_path texture s =
    if is_regular w validated then
      match trimesh_load_mesh (libs s) validated with
      | Raise e => (Raise e, asked)
      | Ok mesh =>
          match texture with
          | Some (String c t) =>
              let validated_texture := os_path.expanduser (env w) (String c t) in
              if is_regular w validated_texture then
                (Ok (mesh, Some validated_texture),
                 Session (with_log loaded
                            ("Validating texture from " +:+ validated_texture +:+ " ..."))
                         (libs s) (calls s ++ [Call_load_mesh validated]))
              else (Raise (NotFoundError validated_texture), asked)
          | _ => (Ok (mesh, texture), asked)
          end
      end
    else (Raise (NotFoundError validated), Session w (libs s) (calls s)).
Proof.
  cbv zeta. unfold read_mesh, sbind at 1. rewrite in_world_validate_path.
  destruct (is_regular (io s) _); [|reflexivity].
  unfold sbind at 1 2, in_world at 1, logging_info at 1, call_library at 1.
  cbn [io libs calls]. fold (with_log (io s)
    ("Loading mesh from " +:+ os_path.expanduser (env (io s)) file_path +:+ " ...")).
  destruct (trimesh_load_mesh (libs s) _) as [mesh|e]; [|reflexivity].
  destruct texture as [[|c t]|]; try reflexivity.
  unfold sbind at 1 2. rewrite in_world_validate_path. cbn [io libs calls].
  change (env (after_call _ _ (with_log (io s) _))) with (env (io s)).
  change (is_regular (after_call ?l (Call_load_mesh ?p) (with_log (io s) ?m)) ?q)
    with (is_regular (io s) q).
  destruct (is_regular (io s) (os_path.expanduser (env (io s)) (String c t)));
    reflexivity.
Qed.

(** X12.  [read_mesh] looks at the texture only after the mesh is loaded, and
    only validates it.  A missing mesh file raises NotFoundError before
    trimesh is called, whatever the texture.  A texture of [None] or of
    the empty string is handed back as it is; any other texture is
    replaced by its expanded path when that is a regular file, and
    otherwise raises NotFoundError, the mesh having been loaded already.
    trimesh is never called for the texture. *)
Theorem read_mesh_texture (s : session) (file_path : string)
    (texture : option string) :
  let w := io s in
  let validated := os_path.expanduser (env w) file_path in
  let s' := snd (read_mesh file_path texture s) in
  (is_regular w validated = false →
     soutcome (read_mesh file_path texture) s = Raise (NotFoundError validated) ∧
     calls s' = calls s ∧ io s' = w) ∧
  (is_regular w validated = true →
     calls s' = calls s ++ [Call_load_mesh validated] ∧
     ∀ mesh, trimesh_load_mesh (libs s) validated = Ok mesh →
       (truthy texture = false →
          soutcome (read_mesh file_path texture) s = Ok (mesh, texture)) ∧
       (∀ t, texture = Some t → truthy texture = true →
          soutcome (read_mesh file_path texture) s
          = if is_regular w (os_path.expanduser (env w) t)
            then Ok (mesh, Some (os_path.expanduser (env w) t))
            else Raise (NotFoundError (os_path.expanduser (env w) t)))).
Proof.
  cbv zeta. unfold soutcome. rewrite read_mesh_run. cbv zeta. split.
  - intros ->. done.
  - intros ->. split.
    + destruct (trimesh_load_mesh (libs s) _) as [mesh|]; [|done].
      destruct texture as [[|c t]|]; try done.
      by destruct (is_regular (io s) _).
    + intros mesh ->. split.
      * by destruct texture as [[|c t]|].
      * intros t -> Ht. destruct t as [|c t]; [done|].
        by destruct (is_regular (io s) _).
Qed.

Lemma read_mesh_texture_witness :
  soutcome (read_mesh "/notes.txt" (Some "")) sample_session = Ok (Object 1, Some "") ∧
  soutcome (read_mesh "/notes.txt" (Some "~/points.CSV")) sample_session
  = Ok (Object 1, Some "/home/user/points.CSV") ∧
  soutcome (read_mesh "/notes.txt" (Some "/missing.png")) sample_session
  = Raise (NotFoundError "/missing.png") ∧
  calls (snd (read_mesh "/notes.txt" (Some "/missing.png") sample_session))
  = [Call_load_mesh "/notes.txt"].
Proof.
  split; [|split; [|split]].
  - apply (proj2 (proj2 (read_mesh_texture sample_session "/notes.txt" (Some "")) eq_refl)
             (Object 1) eq_refl). reflexivity.
  - exact (proj2 (proj2 (proj2 (read_mesh_texture sample_session "/notes.txt"
                                   (Some "~/points.CSV")) eq_refl)
                    (Object 1) eq_refl) "~/points.CSV" eq_refl eq_refl).
  - exact (proj2 (proj2 (proj2 (read_mesh_texture sample_session "/notes.txt"
                                   (Some "/missing.png")) eq_refl)
                    (Object 1) eq_refl) "/missing.png" eq_refl eq_refl).
  - exact (proj1 (proj2 (read_mesh_texture sample_session "/notes.txt"
                           (Some "/missing.png")) eq_refl)).
Defined.

Lemma read_nifti_run file_path s :
  let w := io s in
  let validated := os_path.expanduser (env w) file_path in
  read_nifti file_path s =
    if is_regular w validated then
      (dipy_load_nifti (libs s) validated,
       Session (after_call (libs s) (Call_load_nifti validated)
                  (with_log w ("Loading NIfTI file from " +:+ validated +:+ " ...")))
               (libs s) (calls s ++ [Call_load_nifti validated]))
    else (Raise (NotFoundError validated), Session w (libs s) (calls s)).
Proof.
  cbv zeta. unfold read_nifti, sbind at 1. rewrite in_world_validate_path.
  destruct (is_regular (io s) _); [|reflexivity].
  unfold sbind at 1 2, in_world at 1, logging_info at 1, call_library at 1.
  cbn [io libs calls].
  by destruct (dipy_load_nifti (libs s) _) as [[img affine]|e].
Qed.

(** X13.  Neither reader reaches its library for a path that is not an existing
    regular file: every call that [read_mesh] or [read_nifti] adds is a
    load of the validated path, and that path is a regular file. *)
Theorem readers_load_only_regular_files (s : session) (file_path : string)
    (texture : option string) (c : library_call) :
  let validated := os_path.expanduser (env (io s)) file_path in
  (c ∈ calls (snd (read_mesh file_path texture s)) → c ∉ calls s →
     c = Call_load_mesh validated ∧ is_regular (io s) validated = true) ∧
  (c ∈ calls (snd (read_nifti file_path s)) → c ∉ calls s →
     c = Call_load_nifti validated ∧ is_regular (io s) validated = true).
Proof.
  cbv zeta. split.
  - rewrite read_mesh_run. cbv zeta.
    destruct (is_regular (io s) _); [|by intros ??].
    assert (Hcalls : ∀ s', calls s' = calls s ++ [Call_load_mesh
                       (os_path.expanduser (env (io s)) file_path)] →
              c ∈ calls s' → c ∉ calls s →
              c = Call_load_mesh (os_path.expanduser (env (io s)) file_path) ∧ true = true).
    { intros s' -> [?|?%list_elem_of_singleton]%elem_of_app ?; done. }
    destruct (trimesh_load_mesh (libs s) _) as [mesh|]; [|by apply Hcalls].
    destruct texture as [[|ch t]|]; try by apply Hcalls.
    destruct (is_regular (io s) _); by apply Hcalls.
  - rewrite read_nifti_run. cbv zeta.
    destruct (is_regular (io s) _); [|by intros ??]. cbn [snd calls].
    intros [?|?%list_elem_of_singleton]%elem_of_app ?; done.
Qed.

Lemma readers_load_only_regular_files_witness :
  is_regular Sample.w0 "/notes.txt" = true.
Proof.
  apply (proj2 (readers_load_only_regular_files sample_session "/notes.txt" None
                  (Call_load_nifti "/notes.txt"))).
  - repeat constructor.
  - apply not_elem_of_nil.
Defined.

(** ** The writers *)

Lemma save_tractogram_run sft file_path s :
  let w := io s in
  let validated := os_path.expanduser (env w) file_path in
  let logged := with_log w ("Saving tractogram to " +:+ validated +:+ " ...") in
  let saved := after_call (libs s) (Call_save_tractogram sft validated) logged in
  let asked := calls s ++ [Call_save_tractogram sft validated] in
  save_tractogram sft file_path s =
    match dipy_save_tractogram (libs s) sft validated with
    | Ok _ => (Ok tt, Session (with_log saved "Tractogram saved successfully.")
                              (libs s) asked)
    | Raise e => (Raise e, Session saved (libs s) asked)
    end.
Proof.
  cbv zeta. unfold save_tractogram, sbind, in_world, call_library,
    os_path_expanduser, bind, get_env, ret, logging_info.
  cbn [io libs calls with_log env resolve dipy_load dipy_messages log load_calls].
  by destruct (dipy_save_tractogram (libs s) sft _) as [[]|e].
Qed.

Lemma save_tractogram_from_streamlines_run streamlines reference embeddings file_path s :
  let args := SftArguments streamlines reference RASMM [("dismatrix", embeddings)] in
  let built := after_call (libs s) (Call_StatefulTractogram args) (io s) in
  save_tractogram_from_streamlines streamlines reference embeddings file_path s =
    match new_StatefulTractogram (libs s) args with
    | Raise e => (Raise e, Session built (libs s) (calls s ++ [Call_StatefulTractogram args]))
    | Ok sft =>
        let saved := after_call (libs s) (Call_save_tractogram sft file_path) built in
        let asked := (calls s ++ [Call_StatefulTractogram args])
                     ++ [Call_save_tractogram sft file_path] in
        match dipy_save_tractogram (libs s) sft file_path with
        | Ok _ => (Ok tt, Session (with_log saved "Tractogram saved successfully.")
                                  (libs s) asked)
        | Raise e => (Raise e, Session saved (libs s) asked)
        end
    end.
Proof.
  cbv zeta. unfold save_tractogram_from_streamlines, sbind, in_world, call_library,
    logging_info.
  cbn [io libs calls].
  destruct (new_StatefulTractogram (libs s) _) as [sft|e]; [|reflexivity].
  cbn [io libs calls].
  by destruct (dipy_save_tractogram (libs s) sft file_path) as [[]|e].
Qed.

(** X14.  [save_tractogram] validates nothing: whatever the file system holds,
    dipy is asked exactly once to save to the expanded path, and what dipy
    returns or raises is what the call returns or raises.  The files are
    afterwards as dipy left them.  The log has grown by the message of
    saving, then what dipy logged, then the message of success when dipy
    returned, and nothing when it raised. *)
Theorem save_tractogram_effects (s : session) (sft : StatefulTractogram)
    (file_path : string) :
  let w := io s in
  let validated := os_path.expanduser (env w) file_path in
  let saving := "Saving tractogram to " +:+ validated +:+ " ..." in
  let s' := snd (save_tractogram sft file_path s) in
  calls s' = calls s ++ [Call_save_tractogram sft validated] ∧
  soutcome (save_tractogram sft file_path) s
  = dipy_save_tractogram (libs s) sft validated ∧
  resolve (io s') = dipy_save_writes (libs s) sft validated (resolve w) ∧
  log (io s')
  = log w ++ [saving] ++ library_messages (libs s) (Call_save_tractogram sft validated)
      ++ (if dipy_save_tractogram (libs s) sft validated is Ok _
          then ["Tractogram saved successfully."] else []).
Proof.
  cbv zeta. unfold soutcome. rewrite save_tractogram_run. cbv zeta.
  destruct (dipy_save_tractogram (libs s) sft _) as [[]|e];
    cbn [fst snd io calls with_log after_call log resolve library_writes];
    repeat split; by rewrite <- ?app_assoc, ?app_nil_r.
Qed.

Lemma save_tractogram_effects_witness :
  soutcome (save_tractogram (Sft true None) "~/out.trx") sample_session = Ok tt ∧
  is_regular (io (snd (save_tractogram (Sft true None) "~/out.trx" sample_session)))
    "/home/user/out.trx" = true ∧
  log (io (snd (save_tractogram (Sft true None) "~/out.trx" sample_session)))
  = [ "Saving tractogram to /home/user/out.trx ...";
      "dipy: saving /home/user/out.trx";
      "Tractogram saved successfully." ].
Proof.
  pose proof (save_tractogram_effects sample_session (Sft true None) "~/out.trx")
    as (_ & Hout & Hfiles & Hlog).
  split; [exact Hout|]. split; [|exact Hlog].
  unfold is_regular. by rewrite Hfiles.
Defined.

(** X15.  [save_tractogram_from_streamlines] builds the tractogram in RASMM
    space with the embeddings as its only per-streamline data, under the
    key "dismatrix", and hands dipy the path as it was given: unlike
    [save_tractogram] it does not expand a leading tilde.  When the
    constructor raises, dipy is not asked to save and the function itself
    logs nothing.  Otherwise what dipy's save returns or raises is the
    result, the files are as dipy left them, and the one message the
    function logs, of success, comes last and only when dipy returned. *)
Theorem save_from_streamlines_effects (s : session) (streamlines : object)
    (reference : Reference) (embeddings : object) (file_path : string) :
  let args := SftArguments streamlines reference RASMM [("dismatrix", embeddings)] in
  let built := library_messages (libs s) (Call_StatefulTractogram args) in
  let s' := snd (save_tractogram_from_streamlines streamlines reference embeddings
                   file_path s) in
  (∀ e, new_StatefulTractogram (libs s) args = Raise e →
     soutcome (save_tractogram_from_streamlines streamlines reference embeddings
                 file_path) s = Raise e ∧
     calls s' = calls s ++ [Call_StatefulTractogram args] ∧
     log (io s') = log (io s) ++ built) ∧
  (∀ sft, new_StatefulTractogram (libs s) args = Ok sft →
     calls s' = calls s ++ [Call_StatefulTractogram args;
                            Call_save_tractogram sft file_path] ∧
     soutcome (save_tractogram_from_streamlines streamlines reference embeddings
                 file_path) s
     = dipy_save_tractogram (libs s) sft file_path ∧
     resolve (io s') = dipy_save_writes (libs s) sft file_path (resolve (io s)) ∧
     log (io s')
     = log (io s) ++ built
         ++ library_messages (libs s) (Call_save_tractogram sft file_path)
         ++ (if dipy_save_tractogram (libs s) sft file_path is Ok _
             then ["Tractogram saved successfully."] else [])).
Proof.
  cbv zeta. unfold soutcome. rewrite save_tractogram_from_streamlines_run. cbv zeta.
  destruct (new_StatefulTractogram (libs s) _) as [sft|e].
  - split; [intros; discriminate|]. intros ? [= <-].
    destruct (dipy_save_tractogram (libs s) sft file_path) as [[]|e];
      cbn [fst snd io calls with_log after_call log resolve library_writes];
      repeat split; by rewrite <- ?app_assoc, ?app_nil_r.
  - cbn [fst snd io calls after_call log]. split; [|intros; discriminate].
    by intros ? [= <-].
Qed.

Lemma save_from_streamlines_effects_witness :
  calls (snd (save_tractogram_from_streamlines (Object 7) (RefStr "same") (Object 8)
                "~/out.trx" sample_session))
  = [ Call_StatefulTractogram
        (SftArguments (Object 7) (RefStr "same") RASMM [("dismatrix", Object 8)]);
      Call_save_tractogram (Sft true (Some ["dismatrix"])) "~/out.trx" ] ∧
  soutcome (save_tractogram_from_streamlines (Object 7) (RefStr "same") (Object 8)
              "~/out.trx") sample_session = Ok tt ∧
  is_regular (io (snd (save_tractogram_from_streamlines (Object 7) (RefStr "same")
                         (Object 8) "~/out.trx" sample_session)))
    "~/out.trx" = true ∧
  log (io (snd (save_tractogram_from_streamlines (Object 7) (RefStr "same") (Object 8)
                  "~/out.trx" sample_session)))
  = ["dipy: saving ~/out.trx"; "Tractogram saved successfully."].
Proof.
  pose proof (proj2 (save_from_streamlines_effects sample_session (Object 7)
                       (RefStr "same") (Object 8) "~/out.trx")
                (Sft true (Some ["dismatrix"])) eq_refl)
    as (Hcalls & Hout & Hfiles & Hlog).
  split; [exact Hcalls|]. split; [exact Hout|]. split; [|exact Hlog].
  unfold is_regular. by rewrite Hfiles.
Defined.

(** ** Well-formed input *)

Lemma resolved_files_nonempty w path csv_paths :
  resolved_files w path = Ok csv_paths → csv_paths ≠ [].
Proof.
  unfold resolved_files.
  destruct (resolve w _) as [[| names |]|].
  2: { destruct (csv_paths_of _ _ _); [discriminate|]. by intros [= <-]. }
  all: destruct (is_regular w _); [|discriminate];
    destruct (is_csv_name _); [|discriminate]; by intros [= <-].
Qed.

Lemma check_all_records first n (recss : list (list (list string))) :
  np.shape first = [length (np.rows first); n] →
  np.check_all first (map (chunk_of_records n) recss) = Ok tt.
Proof.
  intros Hfirst. induction recss as [|recs recss IH]; [done|].
  cbn [map np.check_all]. unfold np.check_against, np.ndim.
  rewrite Hfirst. cbn [chunk_of_records np.shape length tail Nat.eqb negb].
  rewrite bool_decide_eq_true_2 by done. cbn [negb]. exact IH.
Qed.

Lemma promote_str (dts : list np.dtype) :
  Forall (λ dt, dt = np.str_) dts → fold_left np.promote dts np.str_ = np.str_.
Proof. induction 1 as [|? ? -> _ IH]; [done|]. exact IH. Qed.

Lemma stacked_records (n : nat) (recss : list (list (list string))) :
  n ≠ 0 → recss ≠ [] → Forall (λ recs, recs ≠ []) recss →
  stacked (map (chunk_of_records n) recss)
  = Ok (np.Array [length (concat recss); Nat.min 3 n] np.str_
          (map (λ row, map csv.VStr (take 3 row)) (concat recss)),
        np.Array [length (concat recss); n - 3] np.str_
          (map (λ row, map csv.VStr (drop 3 row)) (concat recss))).
Proof.
  intros Hn Hne Hall. unfold stacked.
  assert (Hkept : List.filter nonempty (map (chunk_of_records n) recss)
                  = map (chunk_of_records n) recss).
  { apply forallb_filter_id, forallb_forall. intros c (recs & <- & Hin)%in_map_iff.
    rewrite List.Forall_forall in Hall. specialize (Hall _ Hin).
    unfold nonempty, np.size. cbn [chunk_of_records np.shape fold_right].
    destruct recs; [done|]. by destruct n. }
  rewrite Hkept. destruct recss as [|recs recss]; [done|]. cbn [map].
  unfold np.concatenate. cbn [chunk_of_records np.shape] .
  fold (chunk_of_records n recs).
  rewrite check_all_records by (cbn; by rewrite length_map).
  assert (Hrows : concat (map np.rows (chunk_of_records n recs
                                       :: map (chunk_of_records n) recss))
                  = map (map csv.VStr) (concat (recs :: recss))).
  { change (chunk_of_records n recs :: map (chunk_of_records n) recss)
      with (map (chunk_of_records n) (recs :: recss)).
    generalize (recs :: recss). intros l. induction l as [|x l IH]; [done|].
    cbn [map concat np.rows chunk_of_records]. by rewrite IH, map_app. }
  rewrite Hrows, length_map.
  rewrite promote_str.
  2: { apply Forall_forall. intros dt (c & -> & (r & -> & _)%list_elem_of_fmap)%list_elem_of_fmap.
       done. }
  cbn [result_bind]. unfold split_columns, np.columns_to, np.columns_from.
  cbn [np.shape np.dtype_of np.rows result_bind].
  rewrite !map_map.
  rewrite (map_ext (λ x, take 3 (map csv.VStr x)) (λ row, map csv.VStr (take 3 row)))
    by (intros; apply firstn_map).
  rewrite (map_ext (λ x, drop 3 (map csv.VStr x)) (λ row, map csv.VStr (drop 3 row)))
    by (intros; apply skipn_map).
  done.
Qed.

(** X16.  End to end on well-formed input.  When every resolved file yields a
    chunk of its records as text, each file with at least one record and
    all records with the same number [n] of fields, [n] not zero,
    [read_csv] succeeds: the coordinates are the first three fields of
    every record and the attributes the fields after them, the records
    of all the files in file order, both as arrays of strings (nothing is
    converted to a number). *)
Theorem read_csv_regular_files (w : world) (path : string)
    (d : ascii) (h : bool) (enc : string)
    (csv_paths : list string) (n : nat) (recss : list (list (list string))) :
  resolved_files w path = Ok csv_paths →
  n ≠ 0 →
  Forall2 (λ csv_path recs,
             chunk_of w d h enc csv_path = Ok (chunk_of_records n recs) ∧ recs ≠ [])
    csv_paths recss →
  outcome (read_csv path d h enc) w
  = Ok (np.Array [length (concat recss); Nat.min 3 n] np.str_
          (map (λ row, map csv.VStr (take 3 row)) (concat recss)),
        np.Array [length (concat recss); n - 3] np.str_
          (map (λ row, map csv.VStr (drop 3 row)) (concat recss))).
Proof.
  intros Hfiles Hn Hall.
  rewrite read_csv_outcome, Hfiles. cbn [result_bind].
  assert (Hchunks : all_chunks w d h enc csv_paths
                    = Ok (map (chunk_of_records n) recss)).
  { apply all_chunks_Forall2. apply Forall2_fmap_r.
    eapply Forall2_impl; [exact Hall|]. by intros p recs [? _]. }
  rewrite Hchunks. cbn [result_bind]. apply stacked_records; [done| |].
  - apply resolved_files_nonempty in Hfiles. intros ->.
    by apply Forall2_nil_inv_r in Hall.
  - clear -Hall. induction Hall as [|p recs ps rs [_ ?] _ IH]; by constructor.
Qed.

Lemma read_csv_regular_files_witness :
  outcome (read_csv "~/points.CSV" ","%char true "utf-8") Sample.w0
  = Ok (np.Array [1; 3] np.str_ [[csv.VStr "1"; csv.VStr "2"; csv.VStr "3"]],
        np.Array [1; 1] np.str_ [[csv.VStr "4"]]).
Proof.
  exact (read_csv_regular_files Sample.w0 "~/points.CSV" ","%char true "utf-8"
           ["/home/user/points.CSV"] 4 [[["1"; "2"; "3"; "4"]]]
           eq_refl ltac:(discriminate)
           ltac:(repeat constructor; discriminate)).
Defined.

(** ** Blank lines, and entries that are not CSV files *)

(** X17.  Without a header a blank line is a record of no field: beside a
    record that has fields it makes the rows ragged and the file fails
    with numpy's ValueError.  (With a header blank lines are passed
    over.) *)
Theorem headerless_blank_line_fails (w : world) (d : ascii) (enc csv_path : string)
    (read : string → read_error + string) (text : string)
    (records : list (list string)) (record : list string) :
  resolve w csv_path = Some (File read) → read enc = inr text →
  csv.reader text d = Ok records →
  [] ∈ records → record ∈ records → record ≠ [] →
  chunk_of w d false enc csv_path = Raise (np.inhomogeneous "1") ∧
  ¬ specified_error (np.inhomogeneous "1").
Proof.
  intros Hfile Hread Hrec Hblank Hrecord Hne.
  split; [|apply raised_below_not_specified; left; eauto].
  rewrite (proj2 (chunk_of_file w d enc csv_path read text Hfile Hread)), Hrec.
  cbn [result_bind]. unfold np.asarray.
  destruct records as [|first rest]; [by apply elem_of_nil in Hblank|].
  cbn [map]. rewrite length_map.
  assert (Hlens : forallb (λ r, (length r =? length first)%nat)
                    (map csv.VStr first :: map (map csv.VStr) rest) = false).
  { change (map csv.VStr first :: map (map csv.VStr) rest)
      with (map (map csv.VStr) (first :: rest)).
    destruct (forallb _ _) eqn:E; [|done]. rewrite forallb_forall in E.
    assert (Hlen : ∀ r, r ∈ first :: rest → length r = length first).
    { intros r Hr. apply Nat.eqb_eq. rewrite <- (length_map csv.VStr r).
      apply E, in_map. by apply list_elem_of_In. }
    pose proof (Hlen _ Hblank) as H0. pose proof (Hlen _ Hrecord) as H1.
    destruct record; [done|]. cbn in H0, H1. lia. }
  by rewrite Hlens.
Qed.

Lemma headerless_blank_line_fails_witness :
  chunk_of irregular_world ","%char false "utf-8" "/odd/repeated.csv"
  = Raise (np.inhomogeneous "1") ∧
  ¬ specified_error (np.inhomogeneous "1").
Proof.
  exact (headerless_blank_line_fails irregular_world ","%char "utf-8" "/odd/repeated.csv"
           _ _ [["x"; "y"; "x"]; ["1"; "2"]; []; ["7"; "8"; "9"]] ["1"; "2"]
           eq_refl eq_refl eq_refl
           ltac:(repeat constructor) ltac:(repeat constructor) ltac:(discriminate)).
Defined.

(** X18.  What a directory holds beside its CSV files does not count.  Two
    worlds that differ only in what the directory lists, and whose
    listings keep the same names, give [read_csv] the same result:
    entries with another extension, and entries that are not regular
    files, are never opened. *)
Theorem read_csv_ignores_other_entries (w w' : world) (path : string)
    (d : ascii) (h : bool) (enc : string) (names names' : list string) :
  let directory := os_path.expanduser (env w) path in
  env w' = env w →
  resolve w directory = Some (Dir names) →
  resolve w' directory = Some (Dir names') →
  (∀ p, p ≠ directory → resolve w' p = resolve w p) →
  csv_names w directory names' ≡ₚ csv_names w directory names →
  outcome (read_csv path d h enc) w' = outcome (read_csv path d h enc) w.
Proof.
  intros directory Henv Hdir Hdir' Hsame Hkept.
  assert (Hreg : ∀ p, is_regular w' p = is_regular w p).
  { intros p. unfold is_regular. destruct (decide (p = directory)) as [->|Hne].
    - by rewrite Hdir, Hdir'.
    - by rewrite Hsame. }
  assert (Hnames : csv_names w' directory names' = csv_names w directory names').
  { unfold csv_names. apply filter_ext. intros name. by rewrite Hreg. }
  assert (Hpaths : csv_paths_of w' directory names' = csv_paths_of w directory names).
  { unfold csv_paths_of. rewrite Hnames. apply sorted_of_permutation.
    by apply Permutation_map. }
  rewrite !read_csv_outcome. unfold resolved_files. rewrite Henv. fold directory.
  rewrite Hdir, Hdir', Hpaths.
  destruct (csv_paths_of w directory names) as [|p ps] eqn:E; [done|].
  cbn [result_bind]. f_equal. apply all_chunks_same_files.
  intros q Hq. apply Hsame. intros ->.
  assert (Hin : directory ∈ csv_paths_of w directory names) by by rewrite E.
  unfold csv_paths_of in Hin. rewrite sorted_permutation in Hin.
  apply list_elem_of_fmap in Hin as (name & Hjoin & (_ & Hr & _)%elem_of_csv_names).
  rewrite <- Hjoin in Hr. unfold is_regular in Hr. by rewrite Hdir in Hr.
Qed.

Lemma cluttered_world_elsewhere (p : string) :
  p ≠ "/data" → resolve cluttered_world p = resolve Sample.w0 p.
Proof.
  intros Hne. cbn [cluttered_world Sample.w0 resolve].
  unfold Sample.files. cbn [list_to_map foldr fst snd curry uncurry].
  rewrite !lookup_insert. case_decide; [congruence|done].
Qed.

Lemma read_csv_ignores_other_entries_witness :
  outcome (read_csv "/data" ","%char true "utf-8") cluttered_world
  = outcome (read_csv "/data" ","%char true "utf-8") Sample.w0.
Proof.
  refine (read_csv_ignores_other_entries Sample.w0 cluttered_world "/data"
            ","%char true "utf-8" ["B.csv"; "A.csv"]
            ["B.csv"; "README.md"; "A.csv"; "gone.csv"]
            eq_refl eq_refl eq_refl cluttered_world_elsewhere _).
  apply Permutation_refl.
Defined.
